(** * CapitalClient: the REST and streaming client of src/main.py

    A shallow embedding of the class [CapitalClient]: the credential
    fields [cst] and [sec], the REST operations [login], [ping],
    [search_markets] and [place_market_order] over the [requests]
    library, and the WebSocket session [stream_quotes].

    The venue is the environment. REST calls are answered by a
    [network], a function of the requests made so far and of the request
    at hand; every request the client issues is appended to a log, so
    "no network call" is "the log did not grow". The WebSocket is
    described by a [ws_world]: what [create_connection], [send],
    [time.time()], [recv] and [close] do, in the order the client meets
    them; the client's side is recorded as a list of [ws_event]s.

    Python values are [pyval]s; a dict with string keys is a [gmap], so
    two payloads are equal exactly when Python's [==] on dicts says so.
    Strings are ASCII strings. *)

From Stdlib Require Import ZArith String Ascii List Bool Lia.
From Stdlib Require Import Floats.SpecFloat.
From stdpp Require Import gmap strings list fin_maps pretty.

Set Warnings "-register-all".
Open Scope string_scope.
Open Scope Z_scope.

(* ===================================================================== *)
(** ** Python values *)
(* ===================================================================== *)

(** What [json.loads] and [r.json()] return, and what [json=] and
    [json.dumps] accept. A Python float is an IEEE 754 binary64 number,
    [spec_float] at precision 53. *)
Inductive pyval :=
| PNone
| PBool (b : bool)
| PInt (n : Z)
| PFloat (f : spec_float)
| PStr (s : string)
| PList (l : list pyval)
| PDict (d : gmap string pyval).

(** [v is None] *)
Definition is_None (v : pyval) : bool :=
  match v with PNone => true | _ => false end.

(** A value of type [str] or [None], as [self.cst] and [self.sec] are. *)
Definition opt_str (o : option string) : pyval :=
  match o with Some s => PStr s | None => PNone end.

(** Truth value of a [str]-or-[None]: [None] and the empty string are
    false. *)
Definition truthy (o : option string) : bool :=
  match o with
  | None => false
  | Some s => negb (String.eqb s "")
  end.

(** [s.upper()] on ASCII text: [a]..[z] become [A]..[Z]. *)
Definition upper_ascii (a : ascii) : ascii :=
  let n := nat_of_ascii a in
  if ((97 <=? n) && (n <=? 122))%nat then ascii_of_nat (n - 32) else a.

Fixpoint upper (s : string) : string :=
  match s with
  | EmptyString => EmptyString
  | String a s' => String (upper_ascii a) (upper s')
  end.

(** [",".join(l)] *)
Fixpoint join (sep : string) (l : list string) : string :=
  match l with
  | [] => ""
  | [x] => x
  | x :: l' => x ++ sep ++ join sep l'
  end.

(** [l[:n]] for [n >= 0] *)
Definition slice_to (n : nat) (l : list pyval) : list pyval := firstn n l.

(** A number passed as [size]: an [int] or a [float]. *)
Inductive number :=
| NInt (n : Z)
| NFloat (f : spec_float).

(* ===================================================================== *)
(** ** HTTP requests, responses and exceptions *)
(* ===================================================================== *)

Inductive method := GET | POST.

(** The URL of a request: the text up to an optional interpolated value,
    [f"{u_text}{u_arg}"]. Only the confirmation URL interpolates a value
    that is not known to be a string. *)
Record url := Url { u_text : string; u_arg : option pyval }.

Record request := Request {
  r_method : method;
  r_url : url;
  r_headers : gmap string string;
  r_params : gmap string string;
  r_json : option pyval;
  r_timeout : Z
}.

(** A response: [resp_json] is [None] when the body is not JSON, so that
    [r.json()] raises. [resp_headers] is keyed by the header names the
    client looks up. *)
Record response := Response {
  status_code : Z;
  resp_headers : gmap string string;
  resp_json : option pyval
}.

Inductive exn :=
| RuntimeError (msg : string)
| HTTPError (rq : request) (status : Z)        (* raise_for_status *)
| RequestException (rq : request) (why : string) (* no response at all *)
| JSONDecodeError
| AttributeError
| OverflowError
| WebSocketException (why : string)
| CallbackError (why : string).                (* raised by on_quote *)

Inductive result (A : Type) :=
| Ok (a : A)
| Raise (e : exn).
Arguments Ok {A} a.
Arguments Raise {A} e.

Definition login_failed_msg : string :=
  "Login ok but CST / X-SECURITY-TOKEN missing in headers.".
Definition not_authenticated_msg : string :=
  "Not authenticated; call login() first.".

(** [str(v)], as an f-string renders [v], for text, [None] and the
    booleans; the renderings of numbers, lists and dicts are left out. *)
Definition py_str (v : pyval) : option string :=
  match v with
  | PStr s => Some s
  | PNone => Some "None"
  | PBool true => Some "True"
  | PBool false => Some "False"
  | _ => None
  end.

(** The text of a URL, when its interpolated value renders. *)
Definition url_text (u : url) : option string :=
  match u_arg u with
  | None => Some (u_text u)
  | Some v => match py_str v with
              | Some s => Some (u_text u ++ s)
              | None => None
              end
  end.

(** [float(x)]: an [int] is rounded to the nearest binary64, ties to
    even, and one too large for the format raises [OverflowError]. *)
Definition float (x : number) : result spec_float :=
  match x with
  | NFloat f => Ok f
  | NInt n =>
      match binary_normalize 53 1024 n 0 false with
      | S754_infinity _ => Raise OverflowError
      | f => Ok f
      end
  end.

(** What the venue does with a request. *)
Inductive reply :=
| Reply (r : response)
| NoReply (why : string).

Definition network := list request -> request -> reply.

(* ===================================================================== *)
(** ** The client object and the state monad of its methods *)
(* ===================================================================== *)

Record CapitalClient := Client {
  base_url : string;
  api_key : string;
  identifier : string;
  api_pass : string;
  cst : option string;
  sec : option string
}.

(** [CapitalClient.__init__] *)
Definition __init__ (base_url api_key identifier api_pass : string) : CapitalClient :=
  {| base_url := base_url; api_key := api_key; identifier := identifier;
     api_pass := api_pass; cst := None; sec := None |}.

(** The object and the log of requests issued so far, oldest first. *)
Record state := State { self : CapitalClient; sent : list request }.

Definition M (A : Type) : Type := state -> result A * state.

Definition ret {A} (a : A) : M A := fun s => (Ok a, s).

Definition raise {A} (e : exn) : M A := fun s => (Raise e, s).

Definition bind {A B} (m : M A) (k : A -> M B) : M B :=
  fun s => match m s with
           | (Ok a, s') => k a s'
           | (Raise e, s') => (Raise e, s')
           end.

Notation "x <- m ;; k" := (bind m (fun x => k))
  (at level 62, m at next level, right associativity).

Definition lift {A} (r : result A) : M A := fun s => (r, s).

Definition get_self : M CapitalClient := fun s => (Ok (self s), s).

Definition set_cst (v : option string) : M unit := fun s =>
  let c := self s in
  (Ok tt, {| self := {| base_url := base_url c; api_key := api_key c;
                        identifier := identifier c; api_pass := api_pass c;
                        cst := v; sec := sec c |};
             sent := sent s |}).

Definition set_sec (v : option string) : M unit := fun s =>
  let c := self s in
  (Ok tt, {| self := {| base_url := base_url c; api_key := api_key c;
                        identifier := identifier c; api_pass := api_pass c;
                        cst := cst c; sec := v |};
             sent := sent s |}).

(** A 4xx or 5xx status. *)
Definition error_status (r : response) : bool :=
  (400 <=? status_code r) && (status_code r <? 600).

(** [r.raise_for_status()], for the response [r] to the request [rq]. *)
Definition raise_for_status (rq : request) (r : response) : M unit :=
  if error_status r then raise (HTTPError rq (status_code r)) else ret tt.

(** [r.json()] *)
Definition json (r : response) : M pyval :=
  match resp_json r with
  | Some v => ret v
  | None => raise JSONDecodeError
  end.

(** [d.get(k)]: the value, [None] when the key is absent; an object that
    is not a dict has no [get]. *)
Definition get (d : pyval) (k : string) : result pyval :=
  match d with
  | PDict m => Ok (default PNone (m !! k))
  | _ => Raise AttributeError
  end.

(** The requests of the five endpoints, as the methods build them. *)
Definition session_request (c : CapitalClient) : request :=
  {| r_method := POST;
     r_url := Url (base_url c ++ "/api/v1/session") None;
     r_headers := {[ "X-CAP-API-KEY" := api_key c;
                     "Content-Type" := "application/json" ]};
     r_params := ∅;
     r_json := Some (PDict {[ "identifier" := PStr (identifier c);
                              "password" := PStr (api_pass c);
                              "encryptedPassword" := PBool false ]});
     r_timeout := 20 |}.

Definition ping_request (c : CapitalClient) (h : gmap string string) : request :=
  {| r_method := GET;
     r_url := Url (base_url c ++ "/api/v1/ping") None;
     r_headers := h; r_params := ∅; r_json := None; r_timeout := 10 |}.

Definition markets_request (c : CapitalClient) (h params : gmap string string)
  : request :=
  {| r_method := GET;
     r_url := Url (base_url c ++ "/api/v1/markets") None;
     r_headers := h; r_params := params; r_json := None; r_timeout := 20 |}.

Definition positions_request (c : CapitalClient) (h : gmap string string)
    (payload : gmap string pyval) : request :=
  {| r_method := POST;
     r_url := Url (base_url c ++ "/api/v1/positions") None;
     r_headers := <[ "Content-Type" := "application/json" ]> h;
     r_params := ∅; r_json := Some (PDict payload); r_timeout := 20 |}.

Definition confirms_request (c : CapitalClient) (h : gmap string string)
    (deal_ref : pyval) : request :=
  {| r_method := GET;
     r_url := Url (base_url c ++ "/api/v1/confirms/") (Some deal_ref);
     r_headers := h; r_params := ∅; r_json := None; r_timeout := 20 |}.

(** Lines 54-56: [params], with [epics] joined when the list is given and
    not empty. *)
Definition markets_params (search_term : string) (epics : option (list string))
  : gmap string string :=
  match epics with
  | Some (e :: l) => <[ "epics" := join "," (e :: l) ]> {[ "searchTerm" := search_term ]}
  | _ => {[ "searchTerm" := search_term ]}
  end.

(** Lines 65-66: the payload after [update] with the risk fields that
    are not [None]. *)
Definition order_payload (epic direction : string) (size : spec_float)
    (risk : gmap string pyval) : gmap string pyval :=
  filter (fun kv : string * pyval => is_None kv.2 = false) risk
    ∪ {[ "epic" := PStr epic;
         "direction" := PStr (upper direction);
         "size" := PFloat size ]}.

(** Lines 39-42. *)
Definition _auth_headers : M (gmap string string) :=
  c <- get_self ;;
  if negb (truthy (cst c) && truthy (sec c))
  then raise (RuntimeError not_authenticated_msg)
  else
    match cst c, sec c with
    | Some a, Some b => ret {[ "CST" := a; "X-SECURITY-TOKEN" := b ]}
    | _, _ => raise (RuntimeError not_authenticated_msg)
    end.

Section Rest.

Variable net : network.

(** [requests.get] and [requests.post]: the request is logged whether
    or not it is answered. *)
Definition http (rq : request) : M response := fun s =>
  let s' := {| self := self s; sent := (sent s ++ [rq])%list |} in
  match net (sent s) rq with
  | Reply r => (Ok r, s')
  | NoReply why => (Raise (RequestException rq why), s')
  end.

(** Lines 26-37: POST /api/v1/session *)
Definition login : M bool :=
  c <- get_self ;;
  let rq := session_request c in
  r <- http rq ;;
  _ <- raise_for_status rq r ;;
  _ <- set_cst (resp_headers r !! "CST") ;;
  _ <- set_sec (resp_headers r !! "X-SECURITY-TOKEN") ;;
  c' <- get_self ;;
  if negb (truthy (cst c')) || negb (truthy (sec c'))
  then raise (RuntimeError login_failed_msg)
  else ret true.

(** Lines 45-49: GET /api/v1/ping *)
Definition ping : M pyval :=
  c <- get_self ;;
  h <- _auth_headers ;;
  let rq := ping_request c h in
  r <- http rq ;;
  _ <- raise_for_status rq r ;;
  json r.

(** Lines 52-59: GET /api/v1/markets?searchTerm=... ; [epics] is a list
    of strings or [None]. *)
Definition search_markets (search_term : string) (epics : option (list string))
  : M pyval :=
  c <- get_self ;;
  let params := markets_params search_term epics in
  h <- _auth_headers ;;
  let rq := markets_request c h params in
  r <- http rq ;;
  _ <- raise_for_status rq r ;;
  json r.

(** Lines 63-73: POST /api/v1/positions, then
    GET /api/v1/confirms/{dealReference}. [risk] holds the keyword
    arguments of the call. *)
Definition place_market_order (epic direction : string) (size : number)
    (risk : gmap string pyval) : M pyval :=
  c <- get_self ;;
  fsize <- lift (float size) ;;
  let payload := order_payload epic direction fsize risk in
  h <- _auth_headers ;;
  let rq := positions_request c h payload in
  r <- http rq ;;
  _ <- raise_for_status rq r ;;
  body <- json r ;;
  deal_ref <- lift (get body "dealReference") ;;
  h' <- _auth_headers ;;
  let rq' := confirms_request c h' deal_ref in
  conf <- http rq' ;;
  _ <- raise_for_status rq' conf ;;
  cj <- json conf ;;
  ret (PDict {[ "dealReference" := deal_ref; "confirm" := cj ]}).

(** A caller's REST calls after [login], and a caller that goes on to
    the next call whatever the last one returned or raised. *)
Inductive call :=
| Ping
| SearchMarkets (search_term : string) (epics : option (list string))
| PlaceMarketOrder (epic direction : string) (size : number)
                   (risk : gmap string pyval).

Definition perform (k : call) : M pyval :=
  match k with
  | Ping => ping
  | SearchMarkets t e => search_markets t e
  | PlaceMarketOrder e d n risk => place_market_order e d n risk
  end.

Fixpoint perform_all (ks : list call) (s : state) : state :=
  match ks with
  | [] => s
  | k :: ks' => perform_all ks' (snd (perform k s))
  end.

End Rest.

(** Keyword arguments collected by [**risk] never carry the name of a
    parameter: Python refuses such a call before the body runs. *)
Definition keyword_args (risk : gmap string pyval) : Prop :=
  risk !! "self" = None /\ risk !! "epic" = None /\
  risk !! "direction" = None /\ risk !! "size" = None.

(* ===================================================================== *)
(** ** The WebSocket session *)
(* ===================================================================== *)

Definition WS_URL : string :=
  "wss://api-streaming-capital.backend-capital.com/connect".

(** What [ws.recv()] hands back: the text, and what [json.loads] makes of
    it ([None] when it raises). The decoder is the library's and is not
    re-implemented: the world supplies each text with its decoding. *)
Record frame := Frame { raw : string; decoded : option pyval }.

Inductive recv :=
| Recv (f : frame)
| RecvRaises (e : exn).

(** The environment of one session: whether [create_connection] and the
    subscribe [send] raise, the successive readings of [time.time()],
    the successive outcomes of [ws.recv()], and whether [ws.close()]
    raises. *)
Record ws_world := World {
  connect_error : option exn;
  send_error : option exn;
  clock : list Z;
  inbox : list recv;
  close_error : option exn
}.

(** What the client does on the socket, and its calls of the consumer. *)
Inductive ws_event :=
| Connect (to : string) (timeout : Z)
| Send (msg : pyval)
| Read (r : recv)
| Quote (payload : pyval)
| Close.

(** A block of statements that ended: how, and what it did. *)
Definition ended : Type := result unit * list ws_event.

(** A run of the session as far as the world describes it: the events so
    far, and how it ended, [None] when the description stops before the
    session does. *)
Definition run : Type := option (result unit) * list ws_event.

(** The control message of lines 80-86. *)
Definition subscribe_msg (c : CapitalClient) (epics : list pyval) : pyval :=
  PDict {[ "destination" := PStr "marketData.subscribe";
           "correlationId" := PStr "1";
           "cst" := opt_str (cst c);
           "securityToken" := opt_str (sec c);
           "payload" := PDict {[ "epics" := PList (slice_to 40 epics) ]} ]}.

(** [v == "quote"] *)
Definition eq_quote (v : pyval) : bool :=
  match v with
  | PStr s => String.eqb s "quote"
  | _ => false
  end.

(** Lines 99-103: one message of the receive loop. [Ok] goes on to the
    next test of the deadline, [Raise] leaves the loop. *)
Definition dispatch (on_quote : pyval -> option exn) (f : frame) : ended :=
  if String.eqb (raw f) "" then (Ok tt, [])
  else
    match decoded f with
    | None => (Raise JSONDecodeError, [])
    | Some data =>
        match get data "destination", data with
        | Ok d, PDict m =>
            if eq_quote d then
              match m !! "payload" with
              | Some p =>
                  match on_quote p with
                  | None => (Ok tt, [Quote p])
                  | Some e => (Raise e, [Quote p])
                  end
              | None => (Ok tt, [])
              end
            else (Ok tt, [])
        | Raise e, _ => (Raise e, [])
        | Ok _, _ => (Raise AttributeError, [])
        end
    end.

Definition after (evs : list ws_event) (r : run) : run :=
  (fst r, (evs ++ snd r)%list).

(** Lines 97-103. One reading of the clock per test of the deadline, one
    entry of the inbox per [recv]. *)
Fixpoint receive_loop (on_quote : pyval -> option exn) (t_end : Z)
    (clock : list Z) (inbox : list recv) : run :=
  match clock with
  | [] => (None, [])
  | now :: clock' =>
      if now <? t_end then
        match inbox with
        | [] => (None, [])
        | RecvRaises e :: _ => (Some (Raise e), [Read (RecvRaises e)])
        | Recv f :: inbox' =>
            match dispatch on_quote f with
            | (Ok _, evs) =>
                after (Read (Recv f) :: evs)
                      (receive_loop on_quote t_end clock' inbox')
            | (Raise e, evs) => (Some (Raise e), Read (Recv f) :: evs)
            end
        end
      else (Some (Ok tt), [])
  end.

(** [ws.close()] *)
Definition close (w : ws_world) : ended :=
  match close_error w with
  | Some e => (Raise e, [Close])
  | None => (Ok tt, [Close])
  end.

(** [try: ... except: pass] *)
Definition except_pass (r : ended) : ended := (Ok tt, snd r).

(** [try: body finally: fin]: [fin] runs however [body] ends, and an
    exception of [fin] replaces the outcome of [body]. *)
Definition try_finally (body : run) (fin : ended) : run :=
  match fst body with
  | None => body
  | Some res =>
      match fin with
      | (Ok _, evs) => (Some res, (snd body ++ evs)%list)
      | (Raise e, evs) => (Some (Raise e), (snd body ++ evs)%list)
      end
  end.

(** Lines 79-103, the body of the [try]: the subscribe message is sent,
    the deadline is set from a first reading of the clock, and the
    receive loop runs. The keepalive thread of lines 90-94 runs beside
    the loop and only sends; it is not part of this sequential
    embedding. *)
Definition subscribe_and_receive (c : CapitalClient) (epics : list pyval)
    (on_quote : pyval -> option exn) (run_seconds : Z) (w : ws_world) : run :=
  let msg := subscribe_msg c epics in
  match send_error w with
  | Some e => (Some (Raise e), [Send msg])
  | None =>
      match clock w with
      | [] => (None, [Send msg])
      | t0 :: clock' =>
          after [Send msg]
            (receive_loop on_quote (t0 + run_seconds) clock' (inbox w))
      end
  end.

(** Lines 76-108. [create_connection] is outside the [try]: when it
    raises, nothing is closed. *)
Definition stream_quotes (c : CapitalClient) (epics : list pyval)
    (on_quote : pyval -> option exn) (run_seconds : Z) (w : ws_world) : run :=
  match connect_error w with
  | Some e => (Some (Raise e), [Connect WS_URL 20])
  | None =>
      after [Connect WS_URL 20]
        (try_finally (subscribe_and_receive c epics on_quote run_seconds w)
                     (except_pass (close w)))
  end.

(* ===================================================================== *)
(** ** Vocabulary of the statements *)
(* ===================================================================== *)

(** A request carries the two tokens [a] and [b] as its [CST] and
    [X-SECURITY-TOKEN] headers. *)
Definition carries (a b : string) (rq : request) : Prop :=
  r_headers rq !! "CST" = Some a /\ r_headers rq !! "X-SECURITY-TOKEN" = Some b.

(** The client holds no usable pair of tokens. *)
Definition unauthenticated (c : CapitalClient) : Prop :=
  truthy (cst c) && truthy (sec c) = false.

Definition with_tokens (c : CapitalClient) (t u : option string) : CapitalClient :=
  {| base_url := base_url c; api_key := api_key c; identifier := identifier c;
     api_pass := api_pass c; cst := t; sec := u |}.

Definition logged (s : state) (rqs : list request) : state :=
  {| self := self s; sent := (sent s ++ rqs)%list |}.

(** The events of a run of messages that each let the loop go on. *)
Definition events_of (on_quote : pyval -> option exn) (fs : list frame)
  : list ws_event :=
  flat_map (fun f => Read (Recv f) :: snd (dispatch on_quote f)) fs.

(** The loop goes on after this message. *)
Definition goes_on (on_quote : pyval -> option exn) (f : frame) : Prop :=
  fst (dispatch on_quote f) = Ok tt.

(** The described part of the world lets the loop end: some reading of
    the clock is at or past the deadline, and the inbox has an entry for
    every reading before it. *)
Definition deadline_described (t_end : Z) (clock : list Z) (inbox : list recv)
  : Prop :=
  exists n now, clock !! n = Some now /\ t_end <= now /\ (n <= length inbox)%nat.

(* ===================================================================== *)
(** ** Clients and venues of the worked scenarios *)
(* ===================================================================== *)

Definition demo : CapitalClient :=
  __init__ "https://demo-api-capital.backend-capital.com" "key" "user" "secret".

(** Before any [login], and after a [login] that returned the tokens
    [abc] and [xyz]. *)
Definition fresh : state := State demo [].

Definition logged_in : state :=
  State {| base_url := base_url demo; api_key := api_key demo;
           identifier := identifier demo; api_pass := api_pass demo;
           cst := Some "abc"; sec := Some "xyz" |} [].

Definition tokens_abc_xyz : gmap string string :=
  {[ "CST" := "abc"; "X-SECURITY-TOKEN" := "xyz" ]}.

(** The float [1.0]: 2^52 * 2^-52. *)
Definition float_one : spec_float := S754_finite false 4503599627370496 (-52).

(** The POST of an order without risk fields, and the GET that follows
    an answer without [dealReference]. *)
Definition post_plain : request :=
  positions_request (self logged_in) tokens_abc_xyz
    (order_payload "BTCUSD" "buy" float_one ∅).

Definition confirm_None : request :=
  confirms_request (self logged_in) tokens_abc_xyz PNone.

(** The POST and the GET of the order scenario: buy 1 BTCUSD with a
    profit distance of 10, accepted as deal [D1]. *)
Definition risk_profit : gmap string pyval := {[ "profitDistance" := PInt 10 ]}.

Definition post_BTCUSD : request :=
  positions_request (self logged_in) tokens_abc_xyz
    (order_payload "BTCUSD" "buy" float_one risk_profit).

Definition confirm_D1 : request :=
  confirms_request (self logged_in) tokens_abc_xyz (PStr "D1").

(** A venue that answers [login] with a [CST] header and no
    [X-SECURITY-TOKEN]. *)
Definition venue_cst_only : network := fun _ _ =>
  Reply (Response 200 {[ "CST" := "abc" ]} None).

(** A venue that answers [login] with both tokens, and every GET with a
    status record. *)
Definition venue_abc_xyz : network := fun _ rq =>
  match r_method rq with
  | POST => Reply (Response 200 {[ "CST" := "abc"; "X-SECURITY-TOKEN" := "xyz" ]} None)
  | GET => Reply (Response 200 ∅ (Some (PDict {[ "status" := PStr "OK" ]})))
  end.

(** A venue that accepts an order as deal [D1] and confirms it. *)
Definition venue_D1 : network := fun _ rq =>
  match r_method rq with
  | POST => Reply (Response 200 ∅ (Some (PDict {[ "dealReference" := PStr "D1" ]})))
  | GET => Reply (Response 200 ∅ (Some (PDict {[ "dealStatus" := PStr "ACCEPTED" ]})))
  end.

(** A venue whose answer to an order carries no [dealReference], and
    that answers every GET with 200. *)
Definition venue_no_reference : network := fun _ rq =>
  match r_method rq with
  | POST => Reply (Response 200 ∅ (Some (PDict ∅)))
  | GET => Reply (Response 200 ∅ (Some (PDict {[ "dealStatus" := PStr "UNKNOWN" ]})))
  end.

(** A venue that refuses every order with 403, one that accepts an
    order as deal [D1] and then has no confirmation for it, and one that
    refuses every login with 401. *)
Definition venue_rejects : network := fun _ _ =>
  Reply (Response 403 ∅ None).

Definition venue_unconfirmed : network := fun _ rq =>
  match r_method rq with
  | POST => Reply (Response 200 ∅ (Some (PDict {[ "dealReference" := PStr "D1" ]})))
  | GET => Reply (Response 404 ∅ None)
  end.

Definition venue_unauthorized : network := fun _ _ =>
  Reply (Response 401 {[ "CST" := "def"; "X-SECURITY-TOKEN" := "uvw" ]} None).

(** A venue that is never reached. *)
Definition venue_down : network := fun _ _ => NoReply "unreachable".

(** Inbound messages. The texts stand for the JSON on the wire, written
    without its quotation marks. *)
Definition payload_X : pyval :=
  PDict {[ "epic" := PStr "X"; "bid" := PInt 1; "ofr" := PInt 2 ]}.

Definition frame_quote_X : frame :=
  Frame "{destination: quote, payload: {epic: X, bid: 1, ofr: 2}}"
        (Some (PDict {[ "destination" := PStr "quote"; "payload" := payload_X ]})).

Definition frame_ping : frame :=
  Frame "{destination: ping}" (Some (PDict {[ "destination" := PStr "ping" ]})).

Definition frame_malformed : frame := Frame "{destination: quo" None.

Definition frame_list : frame := Frame "[1]" (Some (PList [PInt 1])).

Definition frame_empty : frame := Frame "" None.

(** A consumer that returns. *)
Definition quiet : pyval -> option exn := fun _ => None.

(** Forty-five instrument identifiers, [EPIC0] to [EPIC44]. *)
Definition epics45 : list pyval :=
  map (fun n : nat => PStr ("EPIC" +:+ pretty n)) (seq 0 45).

(** Sessions of twenty seconds opened at time 0. In the first, an
    undecodable message comes before a quote; in the second, a JSON list
    does; the third is the scenario of the quote, the ping
    acknowledgment and the empty read, and its [close] raises; in the
    fourth [recv] raises and [close] raises too. *)
Definition world_malformed : ws_world :=
  World None None [0; 1; 2; 3; 25] [Recv frame_malformed; Recv frame_quote_X] None.

Definition world_list : ws_world :=
  World None None [0; 1; 2; 3; 25] [Recv frame_list; Recv frame_quote_X] None.

Definition world_scenario : ws_world :=
  World None None [0; 1; 2; 3; 25]
        [Recv frame_quote_X; Recv frame_ping; Recv frame_empty]
        (Some (WebSocketException "close failed")).

Definition world_recv_raises : ws_world :=
  World None None [0; 1; 2; 25]
        [Recv frame_quote_X; RecvRaises (WebSocketException "timed out")]
        (Some (WebSocketException "close failed")).

(* ===================================================================== *)
(** ** Configuration, the keepalive thread and the driver *)
(* ===================================================================== *)

(** [s.rstrip("/")]: every trailing slash is dropped. *)
Fixpoint rstrip_slash (s : string) : string :=
  match s with
  | EmptyString => EmptyString
  | String a s' =>
      match rstrip_slash s' with
      | EmptyString => if Ascii.eqb a "/" then EmptyString else String a EmptyString
      | r => String a r
      end
  end.

(** Line 9: [BASE_URL], from the value of [CAPITAL_BASE_URL] when the
    variable is set. *)
Definition BASE_URL (env : option string) : string :=
  rstrip_slash (default "https://demo-api-capital.backend-capital.com" env).

(** Line 93: the message of the keepalive thread. *)
Definition keepalive_msg (c : CapitalClient) : pyval :=
  PDict {[ "destination" := PStr "ping";
           "correlationId" := PStr "keepalive";
           "cst" := opt_str (cst c);
           "securityToken" := opt_str (sec c) ]}.

Inductive pinger_event :=
| Slept (seconds : Z)
| Pinged (msg : pyval).

(** Lines 90-93, the thread taken alone. Each turn of its loop sleeps
    and sends; a turn is described by the client as it is when the
    message is built and by whether [ws.send] raises. The thread ends
    only by an exception; [None] when the description stops first. *)
Fixpoint pinger (turns : list (CapitalClient * option exn))
  : option exn * list pinger_event :=
  match turns with
  | [] => (None, [])
  | (c, Some e) :: _ => (Some e, [Slept 540; Pinged (keepalive_msg c)])
  | (c, None) :: turns' =>
      let r := pinger turns' in
      (fst r, Slept 540 :: Pinged (keepalive_msg c) :: snd r)
  end.

(** [place_market_order] for an [epic] that is not known to be a string:
    line 65 puts whatever it is given into the payload. *)
Definition order_payload_of (epic : pyval) (direction : string) (size : spec_float)
    (risk : gmap string pyval) : gmap string pyval :=
  filter (fun kv : string * pyval => is_None kv.2 = false) risk
    ∪ {[ "epic" := epic;
         "direction" := PStr (upper direction);
         "size" := PFloat size ]}.

Definition place_market_order_of (net : network) (epic : pyval)
    (direction : string) (size : number) (risk : gmap string pyval) : M pyval :=
  c <- get_self ;;
  fsize <- lift (float size) ;;
  let payload := order_payload_of epic direction fsize risk in
  h <- _auth_headers ;;
  let rq := positions_request c h payload in
  r <- http net rq ;;
  _ <- raise_for_status rq r ;;
  body <- json r ;;
  deal_ref <- lift (get body "dealReference") ;;
  h' <- _auth_headers ;;
  let rq' := confirms_request c h' deal_ref in
  conf <- http net rq' ;;
  _ <- raise_for_status rq' conf ;;
  cj <- json conf ;;
  ret (PDict {[ "dealReference" := deal_ref; "confirm" := cj ]}).

(** Truth value of a Python value, as [if v:] tests it. *)
Definition truth (v : pyval) : bool :=
  match v with
  | PNone => false
  | PBool b => b
  | PInt n => negb (n =? 0)
  | PFloat (S754_zero _) => false
  | PFloat _ => true
  | PStr s => negb (String.eqb s "")
  | PList l => match l with [] => false | _ => true end
  | PDict m => negb (Nat.eqb (size m) 0)
  end.

(** What ends the driver besides the exceptions of the client. *)
Inductive crash :=
| Raised (e : exn)
| IndexError
| KeyError
| TypeError.

(** [v[0]]: the first item of a list, the first character of a string;
    a dict decoded from JSON has no key [0]; nothing else can be
    indexed. *)
Definition index0 (v : pyval) : crash + pyval :=
  match v with
  | PList [] => inl IndexError
  | PList (x :: _) => inr x
  | PStr EmptyString => inl IndexError
  | PStr (String a _) => inr (PStr (String a EmptyString))
  | PDict _ => inl KeyError
  | _ => inl TypeError
  end.

(** Line 118: [markets.get("markets", [{}])[0].get("epic")] *)
Definition first_epic_of (markets : pyval) : crash + pyval :=
  match markets with
  | PDict m =>
      match index0 (default (PList [PDict ∅]) (m !! "markets")) with
      | inl c => inl c
      | inr first =>
          match get first "epic" with
          | Ok v => inr v
          | Raise e => inl (Raised e)
          end
      end
  | _ => inl (Raised AttributeError)
  end.

(** The consumer of the driver, lines 122-124: it prints the quote and
    returns. *)
Definition print_quote : pyval -> option exn := fun _ => None.

(** The payloads the consumer was called with, in order. *)
Definition delivered (evs : list ws_event) : list pyval :=
  omap (fun ev => match ev with Quote p => Some p | _ => None end) evs.

(** The keyword arguments of the order of lines 129-134. *)
Definition demo_risk : gmap string pyval :=
  {[ "profitDistance" := PInt 10; "stopDistance" := PInt 10;
     "guaranteedStop" := PBool false ]}.

Inductive ending :=
| Running
| Finished
| Crashed (c : crash).

(** A run of the driver: how it ended, the client and its log of
    requests, what happened on the socket, and the arguments of each
    [print], in order. *)
Record driver := Driver {
  ending_of : ending;
  client : state;
  socket : list ws_event;
  stdout : list (list pyval)
}.

(** Lines 110-134. The four parameters are the values of the environment
    variables, taken to be set except for the base URL. *)
Definition main (env_base_url : option string) (API_KEY IDENTIFIER API_PASS : string)
    (net : network) (w : ws_world) : driver :=
  let cap := State (__init__ (BASE_URL env_base_url) API_KEY IDENTIFIER API_PASS) [] in
  match login net cap with
  | (Raise e, s1) => Driver (Crashed (Raised e)) s1 [] []
  | (Ok _, s1) =>
  match ping net s1 with
  | (Raise e, s2) => Driver (Crashed (Raised e)) s2 [] []
  | (Ok pong, s2) =>
  let out1 := [[PStr "Ping:"; pong]] in
  match search_markets net "BTC" None s2 with
  | (Raise e, s3) => Driver (Crashed (Raised e)) s3 [] out1
  | (Ok markets, s3) =>
  match first_epic_of markets with
  | inl c => Driver (Crashed c) s3 [] out1
  | inr first_epic =>
  let out2 := (out1 ++ [[PStr "Using epic:"; first_epic]])%list in
  let session := stream_quotes (self s3) [first_epic] print_quote 20 w in
  let out3 := (out2 ++ map (fun q => [q]) (delivered (snd session)))%list in
  match fst session with
  | None => Driver Running s3 (snd session) out3
  | Some (Raise e) => Driver (Crashed (Raised e)) s3 (snd session) out3
  | Some (Ok _) =>
      if truth first_epic then
        match place_market_order_of net first_epic "BUY" (NInt 1) demo_risk s3 with
        | (Raise e, s4) => Driver (Crashed (Raised e)) s4 (snd session) out3
        | (Ok trade, s4) =>
            Driver Finished s4 (snd session)
                   (out3 ++ [[PStr "Order result:"; trade]])%list
        end
      else Driver Finished s3 (snd session) out3
  end end end end end.

(** The frames handed back by [recv], in order. *)
Definition frames_read (evs : list ws_event) : list frame :=
  omap (fun ev => match ev with Read (Recv f) => Some f | _ => None end) evs.

(** The payload of a frame that is a quote message: a text that is not
    empty and decodes to an object whose [destination] is ["quote"] and
    that has a [payload]. *)
Definition quote_of (f : frame) : option pyval :=
  if String.eqb (raw f) "" then None
  else
    match decoded f with
    | Some (PDict m) =>
        match m !! "destination" with
        | Some (PStr d) => if String.eqb d "quote" then m !! "payload" else None
        | _ => None
        end
    | _ => None
    end.

(** What the keepalive thread does over turns that all go through. *)
Definition pings (turns : list (CapitalClient * option exn)) : list pinger_event :=
  flat_map (fun t => [Slept 540; Pinged (keepalive_msg (fst t))]) turns.

(** A venue for the driver, at the demo endpoint: it answers [login]
    with the tokens [abc] and [xyz], [ping] with a status record, the
    market search with [markets], an order with the deal [D1], and any
    other request with a confirmation. *)
Definition at_path (rq : request) (path : string) : bool :=
  String.eqb (u_text (r_url rq)) (BASE_URL None ++ path).

Definition venue_with (markets : pyval) : network := fun _ rq =>
  if at_path rq "/api/v1/session" then
    Reply (Response 200 tokens_abc_xyz None)
  else if at_path rq "/api/v1/ping" then
    Reply (Response 200 ∅ (Some (PDict {[ "status" := PStr "OK" ]})))
  else if at_path rq "/api/v1/markets" then
    Reply (Response 200 ∅ (Some markets))
  else if at_path rq "/api/v1/positions" then
    Reply (Response 200 ∅ (Some (PDict {[ "dealReference" := PStr "D1" ]})))
  else
    Reply (Response 200 ∅ (Some (PDict {[ "dealStatus" := PStr "ACCEPTED" ]}))).

(** Three answers to the market search: one market, no market, and a
    body without the [markets] key. *)
Definition markets_BTCUSD : pyval :=
  PDict {[ "markets" := PList [PDict {[ "epic" := PStr "BTCUSD" ]}] ]}.

Definition markets_none : pyval := PDict {[ "markets" := PList [] ]}.

Definition markets_no_key : pyval := PDict ∅.

(** The client of the driver after its [login], [ping] and search at
    such a venue. *)
Definition cap_abc_xyz : CapitalClient :=
  {| base_url := BASE_URL None; api_key := "key"; identifier := "user";
     api_pass := "secret"; cst := Some "abc"; sec := Some "xyz" |}.

Definition after_search : state :=
  State cap_abc_xyz
        [session_request (__init__ (BASE_URL None) "key" "user" "secret");
         ping_request cap_abc_xyz tokens_abc_xyz;
         markets_request cap_abc_xyz tokens_abc_xyz (markets_params "BTC" None)].

(** A venue that answers an order with a JSON list, and a session whose
    subscribe message cannot be sent. *)
Definition venue_list_answer : network := fun _ _ =>
  Reply (Response 200 ∅ (Some (PList [PStr "D1"]))).

Definition world_send_raises : ws_world :=
  World None (Some (WebSocketException "broken pipe")) [0; 1; 25]
        [Recv frame_quote_X] None.

(* ===================================================================== *)
(** * Properties of the REST client *)
(* ===================================================================== *)

Ltac run_monad :=
  unfold bind, ret, raise, lift, get_self, set_cst, set_sec,
    raise_for_status, json; simpl.

Lemma logged_nil s : logged s [] = s.
Proof. destruct s as [c l]. unfold logged. simpl. by rewrite app_nil_r. Qed.

Lemma auth_headers_ok s a b :
  cst (self s) = Some a -> sec (self s) = Some b ->
  truthy (Some a) = true -> truthy (Some b) = true ->
  _auth_headers s = (Ok {[ "CST" := a; "X-SECURITY-TOKEN" := b ]}, s).
Proof.
  intros Ha Hb Ta Tb. unfold _auth_headers. run_monad.
  rewrite Ha, Hb, Ta, Tb. reflexivity.
Qed.

Lemma auth_headers_fail s :
  unauthenticated (self s) ->
  _auth_headers s = (Raise (RuntimeError not_authenticated_msg), s).
Proof.
  unfold unauthenticated. intros H. unfold _auth_headers. run_monad.
  rewrite H. reflexivity.
Qed.

(** Without usable tokens an operation stops at [_auth_headers], before
    any request; [place_market_order] builds its payload first, so a
    [size] that [float] refuses stops it earlier still. *)
Lemma unauthenticated_ping net s :
  unauthenticated (self s) ->
  ping net s = (Raise (RuntimeError not_authenticated_msg), s).
Proof.
  intros H. unfold ping. run_monad. rewrite (auth_headers_fail s H). reflexivity.
Qed.

Lemma unauthenticated_search_markets net term epics s :
  unauthenticated (self s) ->
  search_markets net term epics s = (Raise (RuntimeError not_authenticated_msg), s).
Proof.
  intros H. unfold search_markets. run_monad.
  rewrite (auth_headers_fail s H). reflexivity.
Qed.

Lemma unauthenticated_place_market_order net epic direction size risk s :
  unauthenticated (self s) ->
  place_market_order net epic direction size risk s =
    (Raise match float size with
           | Ok _ => RuntimeError not_authenticated_msg
           | Raise e => e
           end, s).
Proof.
  intros H. unfold place_market_order. run_monad.
  destruct (float size) as [f|e]; [|reflexivity].
  rewrite (auth_headers_fail s H). reflexivity.
Qed.

(** What [login] does with a response that [raise_for_status] lets
    through: both header lookups are stored, then tested. *)
Lemma login_stores_headers net s r :
  net (sent s) (session_request (self s)) = Reply r ->
  error_status r = false ->
  login net s =
    (if negb (truthy (resp_headers r !! "CST"))
        || negb (truthy (resp_headers r !! "X-SECURITY-TOKEN"))
     then Raise (RuntimeError login_failed_msg)
     else Ok true,
     {| self := with_tokens (self s) (resp_headers r !! "CST")
                            (resp_headers r !! "X-SECURITY-TOKEN");
        sent := (sent s ++ [session_request (self s)])%list |}).
Proof.
  intros Hnet Hst. unfold login, http. run_monad.
  rewrite Hnet, Hst. simpl.
  destruct (negb (truthy (resp_headers r !! "CST"))
            || negb (truthy (resp_headers r !! "X-SECURITY-TOKEN"))); reflexivity.
Qed.

(** X3. A 4xx or 5xx answer to [login] raises the [HTTPError] of
    [raise_for_status] before the tokens are assigned: [cst] and [sec]
    keep the values they had. *)
Lemma login_http_error net s r :
  net (sent s) (session_request (self s)) = Reply r ->
  error_status r = true ->
  login net s =
    (Raise (HTTPError (session_request (self s)) (status_code r)),
     logged s [session_request (self s)]).
Proof.
  intros Hnet Hst. unfold login, http. run_monad.
  rewrite Hnet, Hst. reflexivity.
Qed.

Lemma carries_positions c a b payload :
  carries a b (positions_request c {[ "CST" := a; "X-SECURITY-TOKEN" := b ]} payload).
Proof. split; reflexivity. Qed.

Section Authenticated.

Variable net : network.
Variables (s : state) (a b : string).
Hypothesis Hcst : cst (self s) = Some a.
Hypothesis Hsec : sec (self s) = Some b.
Hypothesis Ta : truthy (Some a) = true.
Hypothesis Tb : truthy (Some b) = true.

Let h : gmap string string := {[ "CST" := a; "X-SECURITY-TOKEN" := b ]}.

Lemma auth_headers_logged rqs :
  _auth_headers (logged s rqs) = (Ok h, logged s rqs).
Proof. apply auth_headers_ok; assumption. Qed.

(** [ping] issues one request, with the stored tokens and nothing else
    as headers. *)
Lemma ping_authenticated :
  ping net s =
    (match net (sent s) (ping_request (self s) h) with
     | NoReply why => Raise (RequestException (ping_request (self s) h) why)
     | Reply r =>
         if error_status r
         then Raise (HTTPError (ping_request (self s) h) (status_code r))
         else match resp_json r with
              | Some v => Ok v
              | None => Raise JSONDecodeError
              end
     end, logged s [ping_request (self s) h]).
Proof.
  unfold ping, http. run_monad.
  rewrite (auth_headers_ok s a b Hcst Hsec Ta Tb). simpl.
  destruct (net _ _) as [r|why]; [|reflexivity].
  destruct (error_status r); [reflexivity|].
  destruct (resp_json r); reflexivity.
Qed.

Lemma search_markets_authenticated term epics :
  let rq := markets_request (self s) h (markets_params term epics) in
  search_markets net term epics s =
    (match net (sent s) rq with
     | NoReply why => Raise (RequestException rq why)
     | Reply r =>
         if error_status r then Raise (HTTPError rq (status_code r))
         else match resp_json r with
              | Some v => Ok v
              | None => Raise JSONDecodeError
              end
     end, logged s [rq]).
Proof.
  unfold search_markets, http. run_monad.
  rewrite (auth_headers_ok s a b Hcst Hsec Ta Tb). simpl.
  destruct (net _ _) as [r|why]; [|reflexivity].
  destruct (error_status r); [reflexivity|].
  destruct (resp_json r); reflexivity.
Qed.

(** [place_market_order] issues at most two requests: the POST of the
    payload, then the GET of the confirmation, both with the tokens. *)
Lemma place_market_order_requests epic direction size risk :
  exists new,
    snd (place_market_order net epic direction size risk s) = logged s new /\
    Forall (carries a b) new.
Proof.
  unfold place_market_order, http. run_monad.
  destruct (float size) as [f|e]; simpl.
  2:{ exists []. rewrite logged_nil. split; [reflexivity | constructor]. }
  rewrite (auth_headers_ok s a b Hcst Hsec Ta Tb). simpl.
  set (rq := positions_request (self s) _ _).
  assert (Hrq : carries a b rq) by apply carries_positions.
  destruct (net (sent s) rq) as [r|why]; simpl.
  2:{ exists [rq]. split; [reflexivity | by repeat constructor]. }
  destruct (error_status r); simpl.
  { exists [rq]. split; [reflexivity | by repeat constructor]. }
  destruct (resp_json r) as [body|]; simpl.
  2:{ exists [rq]. split; [reflexivity | by repeat constructor]. }
  destruct (get body "dealReference") as [d|e]; simpl.
  2:{ exists [rq]. split; [reflexivity | by repeat constructor]. }
  pose proof (auth_headers_logged [rq]) as Hh. unfold logged in Hh.
  simpl in Hh. rewrite Hh. clear Hh. simpl.
  set (rq' := confirms_request (self s) _ d).
  assert (Hrq' : carries a b rq') by (split; reflexivity).
  assert (Hlog : {| self := self s; sent := ((sent s ++ [rq]) ++ [rq'])%list |}
                 = logged s [rq; rq']).
  { unfold logged. simpl. by rewrite <- app_assoc. }
  exists [rq; rq']. split; [| by repeat constructor].
  destruct (net _ rq') as [conf|why]; simpl; [|exact Hlog].
  destruct (error_status conf); simpl; [exact Hlog|].
  destruct (resp_json conf); simpl; exact Hlog.
Qed.

Lemma perform_requests k :
  exists new,
    snd (perform net k s) = logged s new /\ Forall (carries a b) new.
Proof.
  destruct k as [|term epics|epic direction size risk]; simpl.
  - rewrite ping_authenticated. eexists. split; [reflexivity|].
    repeat constructor.
  - rewrite search_markets_authenticated. eexists. split; [reflexivity|].
    repeat constructor.
  - apply place_market_order_requests.
Qed.

End Authenticated.

Lemma perform_all_requests net a b ks :
  forall s,
    cst (self s) = Some a -> sec (self s) = Some b ->
    truthy (Some a) = true -> truthy (Some b) = true ->
    exists new, perform_all net ks s = logged s new /\ Forall (carries a b) new.
Proof.
  induction ks as [|k ks IH]; intros s Hc Hs Ta Tb; simpl.
  - exists []. rewrite logged_nil. split; [reflexivity | constructor].
  - destruct (perform_requests net s a b Hc Hs Ta Tb k) as (new & E & F).
    rewrite E.
    destruct (IH (logged s new) Hc Hs Ta Tb) as (new' & E' & F').
    exists (new ++ new')%list. split.
    + rewrite E'. unfold logged. simpl. by rewrite app_assoc.
    + by apply Forall_app.
Qed.

Section OrderFlow.

Variable net : network.
Variables (s : state) (a b : string).
Hypothesis Hcst : cst (self s) = Some a.
Hypothesis Hsec : sec (self s) = Some b.
Hypothesis Ta : truthy (Some a) = true.
Hypothesis Tb : truthy (Some b) = true.

Let h : gmap string string := {[ "CST" := a; "X-SECURITY-TOKEN" := b ]}.

(** Every way [place_market_order] can go once the payload is built. *)
Lemma place_market_order_authenticated epic direction size risk f :
  float size = Ok f ->
  place_market_order net epic direction size risk s =
    let post := positions_request (self s) h (order_payload epic direction f risk) in
    match net (sent s) post with
    | NoReply why => (Raise (RequestException post why), logged s [post])
    | Reply r =>
        if error_status r
        then (Raise (HTTPError post (status_code r)), logged s [post])
        else
          match resp_json r with
          | None => (Raise JSONDecodeError, logged s [post])
          | Some body =>
              match get body "dealReference" with
              | Raise e => (Raise e, logged s [post])
              | Ok d =>
                  let confirm := confirms_request (self s) h d in
                  (match net (sent s ++ [post])%list confirm with
                   | NoReply why => Raise (RequestException confirm why)
                   | Reply conf =>
                       if error_status conf
                       then Raise (HTTPError confirm (status_code conf))
                       else match resp_json conf with
                            | Some cj =>
                                Ok (PDict {[ "dealReference" := d; "confirm" := cj ]})
                            | None => Raise JSONDecodeError
                            end
                   end, logged s [post; confirm])
              end
          end
    end.
Proof.
  intros Hf. unfold place_market_order, http. run_monad. rewrite Hf. simpl.
  rewrite (auth_headers_ok s a b Hcst Hsec Ta Tb). simpl.
  set (post := positions_request (self s) _ _).
  destruct (net (sent s) post) as [r|why]; simpl; [|reflexivity].
  destruct (error_status r); simpl; [reflexivity|].
  destruct (resp_json r) as [body|]; simpl; [|reflexivity].
  destruct (get body "dealReference") as [d|e]; simpl; [|reflexivity].
  pose proof (auth_headers_ok (logged s [post]) a b Hcst Hsec Ta Tb) as Hh.
  unfold logged in Hh. simpl in Hh. rewrite Hh. clear Hh. simpl.
  set (confirm := confirms_request (self s) _ d).
  assert (Hlog : {| self := self s; sent := ((sent s ++ [post]) ++ [confirm])%list |}
                 = logged s [post; confirm]).
  { unfold logged. simpl. by rewrite <- app_assoc. }
  destruct (net _ confirm) as [conf|why]; simpl; [|by rewrite Hlog].
  destruct (error_status conf); simpl; [by rewrite Hlog|].
  destruct (resp_json conf); simpl; by rewrite Hlog.
Qed.

(** X1. A POST answered with a 4xx or 5xx status raises the [HTTPError]
    of the POST, and no confirmation GET follows it. *)
Lemma place_market_order_post_rejected epic direction size risk f r :
  float size = Ok f ->
  let post := positions_request (self s) h (order_payload epic direction f risk) in
  net (sent s) post = Reply r ->
  error_status r = true ->
  place_market_order net epic direction size risk s
  = (Raise (HTTPError post (status_code r)), logged s [post]).
Proof.
  intros Hf post Hr He.
  rewrite (place_market_order_authenticated epic direction size risk f Hf).
  simpl. fold post. rewrite Hr, He. reflexivity.
Qed.

(** X2. A confirmation GET answered with a 4xx or 5xx status raises the
    [HTTPError] of the GET, after the POST went through; these two
    requests are all that is sent. *)
Lemma place_market_order_confirm_failed epic direction size risk f r body d conf :
  float size = Ok f ->
  let post := positions_request (self s) h (order_payload epic direction f risk) in
  let confirm := confirms_request (self s) h d in
  net (sent s) post = Reply r ->
  error_status r = false ->
  resp_json r = Some (PDict body) ->
  default PNone (body !! "dealReference") = d ->
  net (sent s ++ [post])%list confirm = Reply conf ->
  error_status conf = true ->
  place_market_order net epic direction size risk s
  = (Raise (HTTPError confirm (status_code conf)), logged s [post; confirm]).
Proof.
  intros Hf post confirm Hr He Hj Hd Hc Hce.
  rewrite (place_market_order_authenticated epic direction size risk f Hf).
  simpl. fold post. rewrite Hr, He, Hj. simpl. rewrite Hd. fold confirm.
  rewrite Hc, Hce. reflexivity.
Qed.

End OrderFlow.

(** The error of a rejected POST is never the error of a failed
    confirmation: they carry requests of different methods. *)
Lemma post_and_confirm_errors_differ c h h' payload d st st' :
  HTTPError (positions_request c h payload) st
  <> HTTPError (confirms_request c h' d) st'.
Proof. intros H. discriminate H. Qed.

(** A string that is not empty is true, as [if a:] tests it. *)
Lemma truthy_nonempty a : a <> "" -> truthy (Some a) = true.
Proof.
  intros H. unfold truthy.
  destruct (String.eqb_spec a ""); [contradiction | reflexivity].
Qed.

(** A status outside 400..599 passes [raise_for_status]. *)
Lemma status_passes r :
  ~ (400 <= status_code r < 600) -> error_status r = false.
Proof.
  intros H. unfold error_status.
  destruct (Z.leb_spec 400 (status_code r)); [|reflexivity].
  destruct (Z.ltb_spec (status_code r) 600); [lia | reflexivity].
Qed.

(** What line 66 keeps of a keyword: its value, unless that is [None]. *)
Lemma filter_risk_not_None (risk : gmap string pyval) k :
  filter (fun kv : string * pyval => is_None kv.2 = false) risk !! k
  = match risk !! k with
    | Some PNone | None => None
    | Some v => Some v
    end.
Proof.
  rewrite map_lookup_filter.
  destruct (risk !! k) as [[]|]; reflexivity.
Qed.


(** The payload of lines 65-66, key by key, for any [epic]: the three
    required fields as given, and for every other key the keyword of
    that name unless its value is [None]. *)
Lemma order_payload_of_lookup epic direction size risk :
  keyword_args risk ->
  order_payload_of epic direction size risk !! "epic" = Some epic /\
  order_payload_of epic direction size risk !! "direction"
    = Some (PStr (upper direction)) /\
  order_payload_of epic direction size risk !! "size" = Some (PFloat size) /\
  forall k, k <> "epic" -> k <> "direction" -> k <> "size" ->
    order_payload_of epic direction size risk !! k
    = match risk !! k with
      | Some PNone | None => None
      | Some v => Some v
      end.
Proof.
  intros (_ & He & Hd & Hs). unfold order_payload_of.
  split; [|split; [|split]].
  - rewrite lookup_union_r; [reflexivity|].
    rewrite filter_risk_not_None. by rewrite He.
  - rewrite lookup_union_r; [reflexivity|].
    rewrite filter_risk_not_None. by rewrite Hd.
  - rewrite lookup_union_r; [reflexivity|].
    rewrite filter_risk_not_None. by rewrite Hs.
  - intros k Ke Kd Ks. rewrite lookup_union_l; [apply filter_risk_not_None|].
    by simplify_map_eq.
Qed.

(** With both tokens stored and a [size] that [float] accepts, an order
    sends its POST first, and after it at most the GET of a
    confirmation, with the same tokens. *)
Lemma place_market_order_of_sends net s a b epic direction size risk f :
  cst (self s) = Some a -> sec (self s) = Some b ->
  truthy (Some a) = true -> truthy (Some b) = true ->
  float size = Ok f ->
  let h : gmap string string := {[ "CST" := a; "X-SECURITY-TOKEN" := b ]} in
  let post := positions_request (self s) h (order_payload_of epic direction f risk) in
  exists rest,
    snd (place_market_order_of net epic direction size risk s)
    = logged s (post :: rest) /\
    (rest = [] \/ exists d, rest = [confirms_request (self s) h d]).
Proof.
  intros Ha Hb Ta Tb Hf h post.
  unfold place_market_order_of, http. run_monad. rewrite Hf. simpl.
  rewrite (auth_headers_ok s a b Ha Hb Ta Tb). simpl.
  fold h. fold post.
  destruct (net (sent s) post) as [r|why]; simpl;
    [|exists []; split; [reflexivity | by left]].
  destruct (error_status r); simpl;
    [exists []; split; [reflexivity | by left]|].
  destruct (resp_json r) as [body|]; simpl;
    [|exists []; split; [reflexivity | by left]].
  destruct (get body "dealReference") as [d|e]; simpl;
    [|exists []; split; [reflexivity | by left]].
  pose proof (auth_headers_ok (logged s [post]) a b Ha Hb Ta Tb) as Hh.
  unfold logged in Hh. simpl in Hh. rewrite Hh. clear Hh. simpl.
  fold h.
  set (confirm := confirms_request (self s) h d).
  assert (Hlog : {| self := self s; sent := ((sent s ++ [post]) ++ [confirm])%list |}
                 = logged s [post; confirm]).
  { unfold logged. simpl. by rewrite <- app_assoc. }
  exists [confirm]. split; [|right; by exists d].
  destruct (net _ confirm) as [conf|why]; simpl; [|exact Hlog].
  destruct (error_status conf); simpl; [exact Hlog|].
  destruct (resp_json conf); simpl; exact Hlog.
Qed.

(* ===================================================================== *)
(** * The claims about the REST client *)
(* ===================================================================== *)

(** C1, as amended. A login response that [raise_for_status] lets
    through and whose [CST] or [X-SECURITY-TOKEN] header is missing or
    empty makes [login] raise its [RuntimeError]. Afterwards the client
    is unauthenticated, so [_auth_headers] and [ping] raise before any
    request; but [cst] and [sec] hold exactly what the two header
    lookups returned, so a token that was present stays stored. *)
Theorem login_missing_token net s r :
  net (sent s) (session_request (self s)) = Reply r ->
  error_status r = false ->
  truthy (resp_headers r !! "CST")
    && truthy (resp_headers r !! "X-SECURITY-TOKEN") = false ->
  exists s',
    login net s = (Raise (RuntimeError login_failed_msg), s') /\
    cst (self s') = resp_headers r !! "CST" /\
    sec (self s') = resp_headers r !! "X-SECURITY-TOKEN" /\
    sent s' = (sent s ++ [session_request (self s)])%list /\
    unauthenticated (self s') /\
    _auth_headers s' = (Raise (RuntimeError not_authenticated_msg), s') /\
    forall net', ping net' s' = (Raise (RuntimeError not_authenticated_msg), s').
Proof.
  intros Hnet Hst Hmiss.
  rewrite (login_stores_headers net s r Hnet Hst).
  eexists. split.
  - f_equal. apply andb_false_iff in Hmiss as [H|H]; rewrite H; simpl;
      [reflexivity | by rewrite orb_true_r].
  - simpl. repeat split; try reflexivity; try exact Hmiss.
    + apply auth_headers_fail. exact Hmiss.
    + intros net'. apply unauthenticated_ping. exact Hmiss.
Qed.

Lemma login_missing_token_witness :
  exists s',
    login venue_cst_only fresh = (Raise (RuntimeError login_failed_msg), s') /\
    cst (self s') = Some "abc" /\
    sec (self s') = None /\
    sent s' = [session_request demo] /\
    unauthenticated (self s') /\
    _auth_headers s' = (Raise (RuntimeError not_authenticated_msg), s') /\
    forall net', ping net' s' = (Raise (RuntimeError not_authenticated_msg), s').
Proof.
  exact (login_missing_token venue_cst_only fresh
           (Response 200 {[ "CST" := "abc" ]} None)
           eq_refl eq_refl eq_refl).
Defined.

(** C1 as stated fails: the venue answers a fresh client's [login] with
    a [CST] header only; [login] raises, and the client is not as it was
    before the call, for it now holds the token [abc]. *)
Lemma login_retains_partial_token :
  fst (login venue_cst_only fresh) = Raise (RuntimeError login_failed_msg) /\
  cst (self fresh) = None /\
  cst (self (snd (login venue_cst_only fresh))) = Some "abc" /\
  self (snd (login venue_cst_only fresh)) <> self fresh.
Proof.
  repeat split; try reflexivity.
  intros H. apply (f_equal cst) in H. discriminate H.
Qed.

(** C2 at its failing input. The POST is answered with 200 and a body
    that has no [dealReference]; [place_market_order] does not fail: it
    sends a GET for the confirmation of the deal named [None], and when
    that is answered it returns a result whose [dealReference] is
    [None]. *)
Theorem place_market_order_without_deal_reference :
  venue_no_reference [] post_plain = Reply (Response 200 ∅ (Some (PDict ∅))) /\
  place_market_order venue_no_reference "BTCUSD" "buy" (NInt 1) ∅ logged_in
  = (Ok (PDict {[ "dealReference" := PNone;
                  "confirm" := PDict {[ "dealStatus" := PStr "UNKNOWN" ]} ]}),
     logged logged_in [post_plain; confirm_None]) /\
  url_text (r_url confirm_None)
  = Some "https://demo-api-capital.backend-capital.com/api/v1/confirms/None".
Proof. vm_compute. repeat split; reflexivity. Qed.

(** C4, as amended. Without a usable pair of tokens no REST operation
    sends a request, and each one raises: [ping] and [search_markets]
    the [RuntimeError] of [_auth_headers], and so does
    [place_market_order] whenever [float(size)] is defined; when
    [float(size)] raises, that exception comes first. *)
Theorem unauthenticated_calls_send_nothing net s term epics epic direction size risk :
  unauthenticated (self s) ->
  ping net s = (Raise (RuntimeError not_authenticated_msg), s) /\
  search_markets net term epics s
    = (Raise (RuntimeError not_authenticated_msg), s) /\
  (forall f, float size = Ok f ->
     place_market_order net epic direction size risk s
     = (Raise (RuntimeError not_authenticated_msg), s)) /\
  (forall e, float size = Raise e ->
     place_market_order net epic direction size risk s = (Raise e, s)).
Proof.
  intros H. split; [|split; [|split]].
  - by apply unauthenticated_ping.
  - by apply unauthenticated_search_markets.
  - intros f Hf.
    rewrite (unauthenticated_place_market_order net epic direction size risk s H).
    by rewrite Hf.
  - intros e He.
    rewrite (unauthenticated_place_market_order net epic direction size risk s H).
    by rewrite He.
Qed.

Lemma unauthenticated_calls_send_nothing_witness :
  ping venue_abc_xyz fresh = (Raise (RuntimeError not_authenticated_msg), fresh) /\
  search_markets venue_abc_xyz "BTC" None fresh
    = (Raise (RuntimeError not_authenticated_msg), fresh) /\
  (forall f, float (NInt 1) = Ok f ->
     place_market_order venue_abc_xyz "BTCUSD" "buy" (NInt 1) ∅ fresh
     = (Raise (RuntimeError not_authenticated_msg), fresh)) /\
  (forall e, float (NInt 1) = Raise e ->
     place_market_order venue_abc_xyz "BTCUSD" "buy" (NInt 1) ∅ fresh
     = (Raise e, fresh)).
Proof.
  exact (unauthenticated_calls_send_nothing venue_abc_xyz fresh "BTC" None
           "BTCUSD" "buy" (NInt 1) ∅ eq_refl).
Defined.

(** C4 as stated fails: on a fresh client an order whose [size] is the
    int 2^1024 raises [OverflowError], not the [RuntimeError] of
    [_auth_headers]; [float(size)] is evaluated on line 65, before the
    tokens are looked at on line 67. *)
Lemma unauthenticated_order_overflows :
  unauthenticated (self fresh) /\
  place_market_order venue_down "BTCUSD" "buy" (NInt (2 ^ 1024)) ∅ fresh
  = (Raise OverflowError, fresh) /\
  OverflowError <> RuntimeError not_authenticated_msg.
Proof.
  split; [reflexivity|]. split; [|discriminate].
  rewrite (unauthenticated_place_market_order venue_down "BTCUSD" "buy"
             (NInt (2 ^ 1024)) ∅ fresh eq_refl).
  vm_compute. reflexivity.
Qed.



(** C7, as amended. A login response that [raise_for_status] lets
    through (its status is not in 400..599) and that carries a
    non-empty [CST] and a non-empty [X-SECURITY-TOKEN] makes [login]
    return [True] with both stored. From then on, after any sequence of
    [ping], [search_markets] and [place_market_order] calls, the tokens
    are still the stored ones and every call sends them: [ping] sends
    one GET to /api/v1/ping whose headers are these two and no other,
    and returns the decoded body of the answer; [search_markets] sends
    one GET to /api/v1/markets with exactly these two headers;
    [place_market_order], when [float(size)] is defined, sends its POST
    to /api/v1/positions with these two and the content type, and after
    it at most one GET, with exactly these two. *)
Theorem login_then_calls_carry_tokens net s r a b :
  net (sent s) (session_request (self s)) = Reply r ->
  ~ (400 <= status_code r < 600) ->
  resp_headers r !! "CST" = Some a ->
  resp_headers r !! "X-SECURITY-TOKEN" = Some b ->
  a <> "" -> b <> "" ->
  let h : gmap string string := {[ "CST" := a; "X-SECURITY-TOKEN" := b ]} in
  exists s',
    login net s = (Ok true, s') /\
    cst (self s') = Some a /\ sec (self s') = Some b /\
    forall ks,
      let s2 := perform_all net ks s' in
      (exists new, s2 = logged s' new /\ Forall (carries a b) new) /\
      (exists rq,
         snd (ping net s2) = logged s2 [rq] /\
         r_method rq = GET /\
         r_url rq = Url (base_url (self s) ++ "/api/v1/ping") None /\
         r_headers rq = h /\
         forall rp v,
           net (sent s2) rq = Reply rp ->
           ~ (400 <= status_code rp < 600) ->
           resp_json rp = Some v ->
           fst (ping net s2) = Ok v) /\
      (forall term epics, exists rq,
         snd (search_markets net term epics s2) = logged s2 [rq] /\
         r_method rq = GET /\
         r_url rq = Url (base_url (self s) ++ "/api/v1/markets") None /\
         r_headers rq = h) /\
      (forall epic direction size risk f,
         float size = Ok f ->
         exists post rest,
           snd (place_market_order net epic direction size risk s2)
           = logged s2 (post :: rest) /\
           r_method post = POST /\
           r_url post = Url (base_url (self s) ++ "/api/v1/positions") None /\
           r_headers post = <[ "Content-Type" := "application/json" ]> h /\
           (length rest <= 1)%nat /\
           Forall (fun rq => r_method rq = GET /\ r_headers rq = h) rest).
Proof.
  intros Hnet Hst Ha Hb Na Nb h.
  pose proof (truthy_nonempty a Na) as Ta.
  pose proof (truthy_nonempty b Nb) as Tb.
  rewrite (login_stores_headers net s r Hnet (status_passes r Hst)).
  rewrite Ha, Hb, Ta, Tb. simpl.
  eexists. split; [reflexivity|]. simpl.
  split; [reflexivity|]. split; [reflexivity|].
  set (s' := {| self := with_tokens (self s) (Some a) (Some b); sent := _ |}).
  intros ks. cbv zeta.
  destruct (perform_all_requests net a b ks s' eq_refl eq_refl Ta Tb)
    as (new & E & F).
  set (s2 := perform_all net ks s') in *.
  assert (Hself : self s2 = with_tokens (self s) (Some a) (Some b))
    by (rewrite E; reflexivity).
  assert (Hc2 : cst (self s2) = Some a) by (rewrite Hself; reflexivity).
  assert (Hs2 : sec (self s2) = Some b) by (rewrite Hself; reflexivity).
  assert (Hbase : base_url (self s2) = base_url (self s))
    by (rewrite Hself; reflexivity).
  split; [exists new; split; assumption|].
  split; [|split].
  - exists (ping_request (self s2) h).
    rewrite (ping_authenticated net s2 a b Hc2 Hs2 Ta Tb). fold h.
    split; [reflexivity|]. split; [reflexivity|].
    split; [simpl; by rewrite Hbase|]. split; [reflexivity|].
    intros rp v Hrp Hsp Hj. cbn [fst].
    by rewrite Hrp, (status_passes rp Hsp), Hj.
  - intros term epics.
    exists (markets_request (self s2) h (markets_params term epics)).
    rewrite (search_markets_authenticated net s2 a b Hc2 Hs2 Ta Tb). fold h.
    split; [reflexivity|]. split; [reflexivity|].
    split; [simpl; by rewrite Hbase | reflexivity].
  - intros epic direction size risk f Hf.
    destruct (place_market_order_of_sends net s2 a b (PStr epic) direction size
                risk f Hc2 Hs2 Ta Tb Hf) as (rest & Hsent & Hrest).
    exists (positions_request (self s2) h (order_payload epic direction f risk)), rest.
    split; [exact Hsent|]. split; [reflexivity|].
    split; [simpl; by rewrite Hbase|]. split; [reflexivity|].
    destruct Hrest as [->|[d ->]]; simpl.
    + split; [lia | constructor].
    + split; [lia | by repeat constructor].
Qed.

Lemma login_abc_xyz_then_ping :
  exists s',
    login venue_abc_xyz fresh = (Ok true, s') /\
    cst (self s') = Some "abc" /\ sec (self s') = Some "xyz" /\
    forall ks,
      (exists new,
         perform_all venue_abc_xyz ks s' = logged s' new /\
         Forall (carries "abc" "xyz") new) /\
      (exists rq,
         snd (ping venue_abc_xyz (perform_all venue_abc_xyz ks s'))
         = logged (perform_all venue_abc_xyz ks s') [rq] /\
         r_method rq = GET /\
         r_url rq = Url (base_url demo ++ "/api/v1/ping") None /\
         r_headers rq = tokens_abc_xyz /\
         forall rp v,
           venue_abc_xyz (sent (perform_all venue_abc_xyz ks s')) rq = Reply rp ->
           ~ (400 <= status_code rp < 600) ->
           resp_json rp = Some v ->
           fst (ping venue_abc_xyz (perform_all venue_abc_xyz ks s')) = Ok v) /\
      (forall term epics, exists rq,
         snd (search_markets venue_abc_xyz term epics
                (perform_all venue_abc_xyz ks s'))
         = logged (perform_all venue_abc_xyz ks s') [rq] /\
         r_method rq = GET /\
         r_url rq = Url (base_url demo ++ "/api/v1/markets") None /\
         r_headers rq = tokens_abc_xyz) /\
      (forall epic direction size risk f,
         float size = Ok f ->
         exists post rest,
           snd (place_market_order venue_abc_xyz epic direction size risk
                  (perform_all venue_abc_xyz ks s'))
           = logged (perform_all venue_abc_xyz ks s') (post :: rest) /\
           r_method post = POST /\
           r_url post = Url (base_url demo ++ "/api/v1/positions") None /\
           r_headers post = <[ "Content-Type" := "application/json" ]> tokens_abc_xyz /\
           (length rest <= 1)%nat /\
           Forall (fun rq => r_method rq = GET /\ r_headers rq = tokens_abc_xyz) rest).
Proof.
  exact (login_then_calls_carry_tokens venue_abc_xyz fresh
           (Response 200 {[ "CST" := "abc"; "X-SECURITY-TOKEN" := "xyz" ]} None)
           "abc" "xyz" eq_refl ltac:(simpl; lia) eq_refl eq_refl
           ltac:(discriminate) ltac:(discriminate)).
Defined.

(** C7 as stated fails: the venue answers a fresh client's [login] with
    the status 401 and headers that hold a non-empty [CST] and a
    non-empty [X-SECURITY-TOKEN]; [login] does not succeed, it raises
    the [HTTPError] of [raise_for_status], and neither token is stored:
    a [ping] after it raises before any request. *)
Lemma login_rejected_despite_tokens :
  venue_unauthorized (sent fresh) (session_request (self fresh))
  = Reply (Response 401 {[ "CST" := "def"; "X-SECURITY-TOKEN" := "uvw" ]} None) /\
  login venue_unauthorized fresh
  = (Raise (HTTPError (session_request demo) 401), State demo [session_request demo]) /\
  cst (self (snd (login venue_unauthorized fresh))) = None /\
  sec (self (snd (login venue_unauthorized fresh))) = None /\
  ping venue_abc_xyz (snd (login venue_unauthorized fresh))
  = (Raise (RuntimeError not_authenticated_msg), State demo [session_request demo]).
Proof. vm_compute. repeat split; reflexivity. Qed.

(** The scenario of C7, run: [login], then [ping]. *)
Example ping_after_login_abc_xyz :
  ping venue_abc_xyz (snd (login venue_abc_xyz fresh))
  = (Ok (PDict {[ "status" := PStr "OK" ]}),
     State (with_tokens demo (Some "abc") (Some "xyz"))
           [session_request demo;
            ping_request demo {[ "CST" := "abc"; "X-SECURITY-TOKEN" := "xyz" ]}]).
Proof. vm_compute. reflexivity. Qed.

(** The same [login], then a market search: one GET with the two
    tokens and the search term. *)
Example search_after_login_abc_xyz :
  search_markets venue_abc_xyz "BTC" None (snd (login venue_abc_xyz fresh))
  = (Ok (PDict {[ "status" := PStr "OK" ]}),
     State (with_tokens demo (Some "abc") (Some "xyz"))
           [session_request demo;
            {| r_method := GET;
               r_url := Url "https://demo-api-capital.backend-capital.com/api/v1/markets" None;
               r_headers := {[ "CST" := "abc"; "X-SECURITY-TOKEN" := "xyz" ]};
               r_params := {[ "searchTerm" := "BTC" ]};
               r_json := None; r_timeout := 20 |}]).
Proof. vm_compute. reflexivity. Qed.

(** An empty token counts as a missing one: a [login] answered with an
    empty [CST] raises, and the [ping] after it sends nothing. *)
Example login_empty_token :
  fst (login (fun _ _ => Reply (Response 200 {[ "CST" := ""; "X-SECURITY-TOKEN" := "xyz" ]} None))
         fresh)
  = Raise (RuntimeError login_failed_msg) /\
  ping venue_abc_xyz
    (snd (login (fun _ _ => Reply (Response 200 {[ "CST" := ""; "X-SECURITY-TOKEN" := "xyz" ]} None))
            fresh))
  = (Raise (RuntimeError not_authenticated_msg),
     State (with_tokens demo (Some "") (Some "xyz")) [session_request demo]).
Proof. vm_compute. split; reflexivity. Qed.

(* ===================================================================== *)
(** * Properties of the streaming session *)
(* ===================================================================== *)

Lemma after_nil r : after [] r = r.
Proof. by destruct r. Qed.

Lemma after_after evs evs' r :
  after evs (after evs' r) = after (evs ++ evs')%list r.
Proof. unfold after. simpl. by rewrite app_assoc. Qed.

Lemma fst_after evs r : fst (after evs r) = fst r.
Proof. reflexivity. Qed.

Section Dispatch.

Variable on_quote : pyval -> option exn.

Lemma dispatch_empty f : raw f = "" -> dispatch on_quote f = (Ok tt, []).
Proof. intros H. unfold dispatch. by rewrite H. Qed.

Lemma dispatch_text f :
  raw f <> "" ->
  dispatch on_quote f =
    match decoded f with
    | None => (Raise JSONDecodeError, [])
    | Some (PDict m) =>
        if eq_quote (default PNone (m !! "destination")) then
          match m !! "payload" with
          | Some p => (match on_quote p with
                       | None => Ok tt
                       | Some e => Raise e
                       end, [Quote p])
          | None => (Ok tt, [])
          end
        else (Ok tt, [])
    | Some _ => (Raise AttributeError, [])
    end.
Proof.
  intros H. unfold dispatch.
  destruct (String.eqb_spec (raw f) "") as [E|_]; [contradiction|].
  destruct (decoded f) as [[| | | | | |m]|]; try reflexivity. simpl.
  destruct (eq_quote _); [|reflexivity].
  destruct (m !! "payload") as [p|]; [|reflexivity].
  destruct (on_quote p); reflexivity.
Qed.

Lemma dispatch_malformed f :
  raw f <> "" -> decoded f = None ->
  dispatch on_quote f = (Raise JSONDecodeError, []).
Proof. intros H D. rewrite dispatch_text by exact H. by rewrite D. Qed.

Lemma dispatch_quote f m p :
  raw f <> "" -> decoded f = Some (PDict m) ->
  m !! "destination" = Some (PStr "quote") -> m !! "payload" = Some p ->
  dispatch on_quote f
  = (match on_quote p with None => Ok tt | Some e => Raise e end, [Quote p]).
Proof.
  intros H D Hd Hp. rewrite dispatch_text by exact H. by rewrite D, Hd, Hp.
Qed.

Lemma eq_quote_true v : eq_quote v = true -> v = PStr "quote".
Proof.
  destruct v; simpl; try discriminate.
  intros H. apply String.eqb_eq in H. by subst.
Qed.

Lemma dispatch_other f m :
  raw f <> "" -> decoded f = Some (PDict m) ->
  m !! "destination" <> Some (PStr "quote") \/ m !! "payload" = None ->
  dispatch on_quote f = (Ok tt, []).
Proof.
  intros H D Hn. rewrite dispatch_text by exact H. rewrite D.
  destruct (eq_quote (default PNone (m !! "destination"))) eqn:E;
    [|reflexivity].
  apply eq_quote_true in E. destruct Hn as [Hn|Hn].
  - destruct (m !! "destination") as [d|]; simpl in E; [|discriminate].
    subst d. contradiction.
  - by rewrite Hn.
Qed.

Lemma dispatch_not_dict f v :
  raw f <> "" -> decoded f = Some v -> (forall m, v <> PDict m) ->
  dispatch on_quote f = (Raise AttributeError, []).
Proof.
  intros H D Hv. rewrite dispatch_text by exact H. rewrite D.
  destruct v; try reflexivity. by destruct (Hv d).
Qed.

(** One turn of the loop before the deadline. *)
Lemma receive_loop_step t_end now clock f inbox :
  now < t_end ->
  receive_loop on_quote t_end (now :: clock) (Recv f :: inbox) =
    match dispatch on_quote f with
    | (Ok _, evs) =>
        after (Read (Recv f) :: evs) (receive_loop on_quote t_end clock inbox)
    | (Raise e, evs) => (Some (Raise e), Read (Recv f) :: evs)
    end.
Proof.
  intros H. simpl. apply Z.ltb_lt in H. by rewrite H.
Qed.

(** A run of messages that each let the loop go on, read before the
    deadline, leaves the loop where it was, with their events in front. *)
Lemma receive_loop_prefix t_end clock inbox pre :
  forall pre_clock,
    length pre_clock = length pre ->
    Forall (fun t => t < t_end) pre_clock ->
    Forall (goes_on on_quote) pre ->
    receive_loop on_quote t_end (pre_clock ++ clock) (map Recv pre ++ inbox)
    = after (events_of on_quote pre) (receive_loop on_quote t_end clock inbox).
Proof.
  induction pre as [|f pre IH]; intros [|t pre_clock] Hlen Ht Hgo;
    try discriminate Hlen.
  - simpl. by rewrite after_nil.
  - inversion Ht as [|? ? Hlt Ht']; subst.
    inversion Hgo as [|? ? Hf Hgo']; subst.
    change ((t :: pre_clock) ++ clock)%list with (t :: (pre_clock ++ clock))%list.
    change (map Recv (f :: pre) ++ inbox)%list
      with (Recv f :: (map Recv pre ++ inbox))%list.
    rewrite receive_loop_step by exact Hlt.
    unfold goes_on in Hf.
    destruct (dispatch on_quote f) as [[[]|e] evs] eqn:E; simpl in Hf;
      [|discriminate].
    rewrite IH; [|by inversion Hlen|exact Ht'|exact Hgo'].
    rewrite after_after. unfold events_of. simpl. by rewrite E.
Qed.

(** The loop ends when the world describes a reading of the clock at or
    past the deadline and enough of the inbox. *)
Lemma receive_loop_ends t_end clock :
  forall inbox,
    deadline_described t_end clock inbox ->
    is_Some (fst (receive_loop on_quote t_end clock inbox)).
Proof.
  induction clock as [|now clock IH]; intros inbox (n & t & Hn & Ht & Hlen).
  - by rewrite lookup_nil in Hn.
  - simpl. destruct (Z.ltb_spec now t_end) as [Hlt|Hge]; [|by eexists].
    destruct n as [|n]; [simpl in Hn; injection Hn as ->; lia|].
    destruct inbox as [|[f|e] inbox]; [simpl in Hlen; lia| |by eexists].
    destruct (dispatch on_quote f) as [[[]|e] evs]; [|by eexists].
    rewrite fst_after. apply IH. exists n, t. simpl in Hlen, Hn.
    repeat split; [exact Hn | exact Ht | lia].
Qed.

End Dispatch.

Lemma stream_quotes_connected c epics on_quote run_seconds w :
  connect_error w = None ->
  stream_quotes c epics on_quote run_seconds w
  = after [Connect WS_URL 20]
      (try_finally (subscribe_and_receive c epics on_quote run_seconds w)
                   (Ok tt, [Close])).
Proof.
  intros H. unfold stream_quotes. rewrite H. do 2 f_equal.
  unfold except_pass, close. by destruct (close_error w).
Qed.

Lemma subscribe_and_receive_sends c epics on_quote run_seconds w :
  exists rest,
    snd (subscribe_and_receive c epics on_quote run_seconds w)
    = Send (subscribe_msg c epics) :: rest.
Proof.
  unfold subscribe_and_receive.
  destruct (send_error w); [by eexists|].
  destruct (clock w); [by eexists|]. simpl. by eexists.
Qed.

Lemma dispatch_never_closes on_quote f : Close ∉ snd (dispatch on_quote f).
Proof.
  destruct (String.eqb_spec (raw f) "") as [E|E].
  - rewrite dispatch_empty by exact E. apply not_elem_of_nil.
  - rewrite dispatch_text by exact E.
    destruct (decoded f) as [[| | | | | |m]|]; try apply not_elem_of_nil.
    destruct (eq_quote _); [|apply not_elem_of_nil].
    destruct (m !! "payload") as [p|]; [|apply not_elem_of_nil].
    apply not_elem_of_cons. split; [discriminate | apply not_elem_of_nil].
Qed.

Lemma receive_loop_never_closes on_quote t_end clock :
  forall inbox, Close ∉ snd (receive_loop on_quote t_end clock inbox).
Proof.
  induction clock as [|now clock IH]; intros inbox; simpl.
  - apply not_elem_of_nil.
  - destruct (now <? t_end); [|apply not_elem_of_nil].
    destruct inbox as [|[f|e] inbox]; [apply not_elem_of_nil| |].
    + pose proof (dispatch_never_closes on_quote f) as Hd.
      destruct (dispatch on_quote f) as [[[]|e] evs]; simpl in *.
      * apply not_elem_of_cons. split; [discriminate|].
        apply not_elem_of_app. split; [exact Hd | apply IH].
      * apply not_elem_of_cons. split; [discriminate | exact Hd].
    + apply not_elem_of_cons. split; [discriminate | apply not_elem_of_nil].
Qed.

Lemma subscribe_and_receive_never_closes c epics on_quote run_seconds w :
  Close ∉ snd (subscribe_and_receive c epics on_quote run_seconds w).
Proof.
  unfold subscribe_and_receive.
  destruct (send_error w);
    [apply not_elem_of_cons; split; [discriminate | apply not_elem_of_nil]|].
  destruct (clock w) as [|t0 cl];
    [apply not_elem_of_cons; split; [discriminate | apply not_elem_of_nil]|].
  simpl. apply not_elem_of_cons. split; [discriminate|].
  apply receive_loop_never_closes.
Qed.

(* ===================================================================== *)
(** * The claims about the streaming session *)
(* ===================================================================== *)

(** C3, as amended. A message that is not empty and that [json.loads]
    cannot decode ends the session: wherever it arrives before the
    deadline, after any run of messages that were handled, the loop is
    left with [JSONDecodeError], nothing that follows in the inbox is
    read, the connection is closed, and [stream_quotes] raises that
    error whatever [close] does. *)
Theorem malformed_message_ends_session
    c epics on_quote run_seconds t0 pre_clock now clock pre f inbox close_err :
  length pre_clock = length pre ->
  Forall (fun t => t < t0 + run_seconds) pre_clock ->
  Forall (goes_on on_quote) pre ->
  now < t0 + run_seconds ->
  raw f <> "" ->
  decoded f = None ->
  stream_quotes c epics on_quote run_seconds
    (World None None (t0 :: pre_clock ++ now :: clock)
           (map Recv pre ++ Recv f :: inbox) close_err)
  = (Some (Raise JSONDecodeError),
     Connect WS_URL 20 :: Send (subscribe_msg c epics)
       :: events_of on_quote pre ++ [Read (Recv f); Close]).
Proof.
  intros Hlen Ht Hgo Hnow Hraw Hdec.
  rewrite stream_quotes_connected by reflexivity.
  unfold subscribe_and_receive. simpl.
  rewrite (receive_loop_prefix on_quote _ _ _ pre pre_clock Hlen Ht Hgo).
  rewrite receive_loop_step by exact Hnow.
  rewrite (dispatch_malformed on_quote f Hraw Hdec).
  unfold try_finally, after. simpl. by rewrite <- app_assoc.
Qed.

Lemma malformed_message_ends_session_witness :
  stream_quotes demo [PStr "X"] quiet 20
    (World None None [0; 1; 2; 3; 25]
           [Recv frame_quote_X; Recv frame_malformed; Recv frame_quote_X] None)
  = (Some (Raise JSONDecodeError),
     [Connect WS_URL 20; Send (subscribe_msg demo [PStr "X"]);
      Read (Recv frame_quote_X); Quote payload_X;
      Read (Recv frame_malformed); Close]).
Proof.
  refine (malformed_message_ends_session demo [PStr "X"] quiet 20 0
            [1] 2 [3; 25] [frame_quote_X] frame_malformed [Recv frame_quote_X]
            None eq_refl _ _ _ _ eq_refl).
  - repeat constructor.
  - repeat constructor.
  - reflexivity.
  - discriminate.
Defined.

(** C3 as stated fails: an undecodable message arrives first, a quote
    is waiting behind it and the deadline is far; the session ends with
    [JSONDecodeError], and the quote is never read nor given to the
    consumer. *)
Lemma malformed_message_aborts :
  stream_quotes demo [PStr "X"] quiet 20 world_malformed
  = (Some (Raise JSONDecodeError),
     [Connect WS_URL 20; Send (subscribe_msg demo [PStr "X"]);
      Read (Recv frame_malformed); Close]) /\
  Quote payload_X ∉ snd (stream_quotes demo [PStr "X"] quiet 20 world_malformed).
Proof.
  assert (E : stream_quotes demo [PStr "X"] quiet 20 world_malformed
              = (Some (Raise JSONDecodeError),
                 [Connect WS_URL 20; Send (subscribe_msg demo [PStr "X"]);
                  Read (Recv frame_malformed); Close]))
    by (vm_compute; reflexivity).
  split; [exact E|]. rewrite E. simpl.
  rewrite !not_elem_of_cons. repeat split; try discriminate.
  apply not_elem_of_nil.
Qed.

(** C5. Once the connection is open the first thing sent is the
    subscribe message, whose [payload.epics] is a prefix of [epics] of
    length min(len(epics), 40); the session runs exactly as it would for
    that prefix, so a longer list is cut, not refused; a list of 45
    yields its first 40. *)
Theorem subscribe_carries_first_40 c epics on_quote run_seconds w :
  connect_error w = None ->
  exists sent_epics dropped rest,
    snd (stream_quotes c epics on_quote run_seconds w)
    = Connect WS_URL 20
        :: Send (PDict {[ "destination" := PStr "marketData.subscribe";
                          "correlationId" := PStr "1";
                          "cst" := opt_str (cst c);
                          "securityToken" := opt_str (sec c);
                          "payload" := PDict {[ "epics" := PList sent_epics ]} ]})
        :: rest /\
    epics = (sent_epics ++ dropped)%list /\
    length sent_epics = Nat.min (length epics) 40 /\
    (length epics = 45%nat -> sent_epics = firstn 40 epics /\ length sent_epics = 40%nat) /\
    stream_quotes c epics on_quote run_seconds w
    = stream_quotes c sent_epics on_quote run_seconds w.
Proof.
  intros Hc. exists (firstn 40 epics), (skipn 40 epics).
  destruct (subscribe_and_receive_sends c epics on_quote run_seconds w)
    as (rest & Hrest).
  exists (match fst (subscribe_and_receive c epics on_quote run_seconds w) with
          | Some _ => (rest ++ [Close])%list
          | None => rest
          end).
  split; [|split; [|split; [|split]]].
  - rewrite stream_quotes_connected by exact Hc. unfold try_finally.
    destruct (subscribe_and_receive c epics on_quote run_seconds w)
      as [[res|] evs]; simpl in *; by rewrite Hrest.
  - by rewrite firstn_skipn.
  - rewrite length_firstn. lia.
  - intros H45. split; [reflexivity|]. rewrite length_firstn. lia.
  - unfold stream_quotes, subscribe_and_receive, subscribe_msg, slice_to.
    rewrite firstn_firstn. reflexivity.
Qed.

Lemma subscribe_carries_first_40_of_45 :
  exists sent_epics dropped rest,
    snd (stream_quotes demo epics45 quiet 20 world_scenario)
    = Connect WS_URL 20
        :: Send (PDict {[ "destination" := PStr "marketData.subscribe";
                          "correlationId" := PStr "1";
                          "cst" := opt_str (cst demo);
                          "securityToken" := opt_str (sec demo);
                          "payload" := PDict {[ "epics" := PList sent_epics ]} ]})
        :: rest /\
    epics45 = (sent_epics ++ dropped)%list /\
    length sent_epics = Nat.min (length epics45) 40 /\
    (length epics45 = 45%nat ->
     sent_epics = firstn 40 epics45 /\ length sent_epics = 40%nat) /\
    stream_quotes demo epics45 quiet 20 world_scenario
    = stream_quotes demo sent_epics quiet 20 world_scenario.
Proof.
  exact (subscribe_carries_first_40 demo epics45 quiet 20 world_scenario eq_refl).
Defined.

(** The subscribe message for [epics45] names [EPIC0] to [EPIC39]. *)
Example subscribe_msg_epics45 :
  subscribe_msg demo epics45
  = PDict {[ "destination" := PStr "marketData.subscribe";
             "correlationId" := PStr "1";
             "cst" := PNone; "securityToken" := PNone;
             "payload" := PDict {[ "epics" :=
                PList (map (fun n : nat => PStr ("EPIC" +:+ pretty n)) (seq 0 40)) ]} ]}.
Proof. vm_compute. reflexivity. Qed.

(** C8, as amended. Before the deadline, for the message just read:
    an empty read is skipped and the loop goes on; a decoded JSON object
    whose [destination] is ["quote"] and that has a [payload] makes the
    loop call the consumer with exactly that payload, before anything
    else is read, and go on when the consumer returns; every other
    decoded JSON object calls nothing and the loop goes on; a decoded
    value that is not an object has no [get] and ends the loop with
    [AttributeError]. *)
Theorem receive_loop_dispatches on_quote t_end now clock f inbox :
  now < t_end ->
  (raw f = "" ->
   receive_loop on_quote t_end (now :: clock) (Recv f :: inbox)
   = after [Read (Recv f)] (receive_loop on_quote t_end clock inbox)) /\
  (forall m p,
     raw f <> "" -> decoded f = Some (PDict m) ->
     m !! "destination" = Some (PStr "quote") -> m !! "payload" = Some p ->
     receive_loop on_quote t_end (now :: clock) (Recv f :: inbox)
     = match on_quote p with
       | None => after [Read (Recv f); Quote p]
                       (receive_loop on_quote t_end clock inbox)
       | Some e => (Some (Raise e), [Read (Recv f); Quote p])
       end) /\
  (forall m,
     raw f <> "" -> decoded f = Some (PDict m) ->
     m !! "destination" <> Some (PStr "quote") \/ m !! "payload" = None ->
     receive_loop on_quote t_end (now :: clock) (Recv f :: inbox)
     = after [Read (Recv f)] (receive_loop on_quote t_end clock inbox)) /\
  (forall v,
     raw f <> "" -> decoded f = Some v -> (forall m, v <> PDict m) ->
     receive_loop on_quote t_end (now :: clock) (Recv f :: inbox)
     = (Some (Raise AttributeError), [Read (Recv f)])).
Proof.
  intros Hnow. rewrite (receive_loop_step on_quote t_end now clock f inbox Hnow).
  split; [|split; [|split]].
  - intros H. by rewrite (dispatch_empty on_quote f H).
  - intros m p H D Hd Hp. rewrite (dispatch_quote on_quote f m p H D Hd Hp).
    by destruct (on_quote p).
  - intros m H D Hn. by rewrite (dispatch_other on_quote f m H D Hn).
  - intros v H D Hv. by rewrite (dispatch_not_dict on_quote f v H D Hv).
Qed.

Lemma receive_loop_dispatches_quote_X :
  (raw frame_quote_X = "" ->
   receive_loop quiet 20 [1; 2; 25] [Recv frame_quote_X; Recv frame_ping]
   = after [Read (Recv frame_quote_X)]
           (receive_loop quiet 20 [2; 25] [Recv frame_ping])) /\
  (forall m p,
     raw frame_quote_X <> "" -> decoded frame_quote_X = Some (PDict m) ->
     m !! "destination" = Some (PStr "quote") -> m !! "payload" = Some p ->
     receive_loop quiet 20 [1; 2; 25] [Recv frame_quote_X; Recv frame_ping]
     = match quiet p with
       | None => after [Read (Recv frame_quote_X); Quote p]
                       (receive_loop quiet 20 [2; 25] [Recv frame_ping])
       | Some e => (Some (Raise e), [Read (Recv frame_quote_X); Quote p])
       end) /\
  (forall m,
     raw frame_quote_X <> "" -> decoded frame_quote_X = Some (PDict m) ->
     m !! "destination" <> Some (PStr "quote") \/ m !! "payload" = None ->
     receive_loop quiet 20 [1; 2; 25] [Recv frame_quote_X; Recv frame_ping]
     = after [Read (Recv frame_quote_X)]
             (receive_loop quiet 20 [2; 25] [Recv frame_ping])) /\
  (forall v,
     raw frame_quote_X <> "" -> decoded frame_quote_X = Some v ->
     (forall m, v <> PDict m) ->
     receive_loop quiet 20 [1; 2; 25] [Recv frame_quote_X; Recv frame_ping]
     = (Some (Raise AttributeError), [Read (Recv frame_quote_X)])).
Proof.
  exact (receive_loop_dispatches quiet 20 1 [2; 25] frame_quote_X
           [Recv frame_ping] eq_refl).
Defined.

(** The scenario of C8, run: the quote for [X] reaches the consumer, the
    ping acknowledgment and the empty read reach nothing, and the
    session ends at its deadline. *)
Example stream_quotes_scenario :
  stream_quotes demo [PStr "X"] quiet 20 world_scenario
  = (Some (Ok tt),
     [Connect WS_URL 20; Send (subscribe_msg demo [PStr "X"]);
      Read (Recv frame_quote_X); Quote payload_X;
      Read (Recv frame_ping); Read (Recv frame_empty); Close]).
Proof. vm_compute. reflexivity. Qed.

(** C8 as stated fails: the message [[1]] is decoded, and it is not
    ignored: the session ends with [AttributeError] and the quote behind
    it is never read. *)
Lemma non_object_message_aborts :
  decoded frame_list = Some (PList [PInt 1]) /\
  stream_quotes demo [PStr "X"] quiet 20 world_list
  = (Some (Raise AttributeError),
     [Connect WS_URL 20; Send (subscribe_msg demo [PStr "X"]);
      Read (Recv frame_list); Close]).
Proof. split; [reflexivity | vm_compute; reflexivity]. Qed.

(** C9. Once the connection is open, whenever the body of the [try]
    ends, at the deadline or by an exception, [stream_quotes] ends the
    same way after one more event, the [Close], which the body never
    performs itself; whether [close] raises has no part in the
    outcome. *)
Theorem close_attempted_and_swallowed c epics on_quote run_seconds w res :
  connect_error w = None ->
  fst (subscribe_and_receive c epics on_quote run_seconds w) = Some res ->
  stream_quotes c epics on_quote run_seconds w
  = (Some res,
     Connect WS_URL 20
       :: snd (subscribe_and_receive c epics on_quote run_seconds w) ++ [Close]) /\
  (Close ∉ snd (subscribe_and_receive c epics on_quote run_seconds w)) /\
  (forall e,
     stream_quotes c epics on_quote run_seconds
       (World (connect_error w) (send_error w) (clock w) (inbox w) e)
     = stream_quotes c epics on_quote run_seconds w).
Proof.
  intros Hc Hres. split; [|split].
  - rewrite stream_quotes_connected by exact Hc.
    unfold try_finally. rewrite Hres. reflexivity.
  - apply subscribe_and_receive_never_closes.
  - intros e. rewrite !stream_quotes_connected by exact Hc. reflexivity.
Qed.

Lemma close_attempted_and_swallowed_witness :
  stream_quotes demo [PStr "X"] quiet 20 world_recv_raises
  = (Some (Raise (WebSocketException "timed out")),
     Connect WS_URL 20
       :: snd (subscribe_and_receive demo [PStr "X"] quiet 20 world_recv_raises)
          ++ [Close]) /\
  (Close ∉ snd (subscribe_and_receive demo [PStr "X"] quiet 20 world_recv_raises)) /\
  (forall e,
     stream_quotes demo [PStr "X"] quiet 20
       (World (connect_error world_recv_raises) (send_error world_recv_raises)
              (clock world_recv_raises) (inbox world_recv_raises) e)
     = stream_quotes demo [PStr "X"] quiet 20 world_recv_raises).
Proof.
  exact (close_attempted_and_swallowed demo [PStr "X"] quiet 20 world_recv_raises
           (Raise (WebSocketException "timed out")) eq_refl eq_refl).
Defined.

(** X4. The body of the [try] does end when the world describes the
    clock up to the deadline: with the connection open, [stream_quotes]
    then has an outcome and its last event is the [Close]. *)
Lemma stream_quotes_ends c epics on_quote run_seconds w t0 clock' :
  connect_error w = None ->
  clock w = t0 :: clock' ->
  deadline_described (t0 + run_seconds) clock' (inbox w) ->
  exists res evs,
    stream_quotes c epics on_quote run_seconds w = (Some res, (evs ++ [Close])%list).
Proof.
  intros Hc Hclock Hd.
  assert (Hs : is_Some (fst (subscribe_and_receive c epics on_quote run_seconds w))).
  { unfold subscribe_and_receive. destruct (send_error w); [by eexists|].
    rewrite Hclock. rewrite fst_after. by apply receive_loop_ends. }
  destruct Hs as [res Hres].
  rewrite stream_quotes_connected by exact Hc. unfold try_finally.
  rewrite Hres. by exists res, (Connect WS_URL 20
    :: snd (subscribe_and_receive c epics on_quote run_seconds w)).
Qed.

(** C10, as amended. [stream_quotes] never looks at whether tokens are
    stored. On a client without a usable pair of tokens it starts by
    opening the connection, and once that is open it sends the subscribe
    message with [cst] and [securityToken] set to whatever is stored:
    [None] (null on the wire) for a token that was never stored. Its
    outcome is the outcome any other client would meet in the same
    world, and it is not the [RuntimeError] of [_auth_headers], which is
    what [ping] meets on that client without sending anything. *)
Theorem stream_quotes_checks_no_credentials
    c epics on_quote run_seconds w net log :
  unauthenticated c ->
  (exists rest,
     snd (stream_quotes c epics on_quote run_seconds w)
     = Connect WS_URL 20 :: rest) /\
  (connect_error w = None ->
   exists m rest,
     snd (stream_quotes c epics on_quote run_seconds w)
     = Connect WS_URL 20 :: Send (PDict m) :: rest /\
     m !! "destination" = Some (PStr "marketData.subscribe") /\
     m !! "cst" = Some (opt_str (cst c)) /\
     m !! "securityToken" = Some (opt_str (sec c)) /\
     (cst c = None -> m !! "cst" = Some PNone) /\
     (sec c = None -> m !! "securityToken" = Some PNone)) /\
  (forall c',
     fst (stream_quotes c' epics on_quote run_seconds w)
     = fst (stream_quotes c epics on_quote run_seconds w)) /\
  ping net (State c log)
  = (Raise (RuntimeError not_authenticated_msg), State c log).
Proof.
  intros Hun. split; [|split; [|split]].
  - unfold stream_quotes. destruct (connect_error w); simpl; by eexists.
  - intros Hc. rewrite stream_quotes_connected by exact Hc.
    destruct (subscribe_and_receive_sends c epics on_quote run_seconds w)
      as (rest & Hrest).
    unfold subscribe_msg in Hrest.
    eexists. unfold try_finally.
    destruct (subscribe_and_receive c epics on_quote run_seconds w)
      as [[res|] evs]; simpl in *; rewrite Hrest;
      (eexists; split; [reflexivity|]);
      (split; [reflexivity|]); (split; [reflexivity|]); (split; [reflexivity|]);
      split; intros ->; reflexivity.
  - intros c'. unfold stream_quotes, try_finally, subscribe_and_receive,
      except_pass.
    destruct (connect_error w); [reflexivity|].
    destruct (send_error w); [reflexivity|].
    destruct (clock w) as [|t0 cl]; [reflexivity|]. simpl.
    destruct (fst (receive_loop on_quote (t0 + run_seconds) cl (inbox w)));
      reflexivity.
  - apply unauthenticated_ping. exact Hun.
Qed.

Lemma stream_quotes_checks_no_credentials_witness :
  (exists rest,
     snd (stream_quotes demo [PStr "X"] quiet 20 world_scenario)
     = Connect WS_URL 20 :: rest) /\
  (connect_error world_scenario = None ->
   exists m rest,
     snd (stream_quotes demo [PStr "X"] quiet 20 world_scenario)
     = Connect WS_URL 20 :: Send (PDict m) :: rest /\
     m !! "destination" = Some (PStr "marketData.subscribe") /\
     m !! "cst" = Some (opt_str (cst demo)) /\
     m !! "securityToken" = Some (opt_str (sec demo)) /\
     (cst demo = None -> m !! "cst" = Some PNone) /\
     (sec demo = None -> m !! "securityToken" = Some PNone)) /\
  (forall c',
     fst (stream_quotes c' [PStr "X"] quiet 20 world_scenario)
     = fst (stream_quotes demo [PStr "X"] quiet 20 world_scenario)) /\
  ping venue_abc_xyz (State demo [])
  = (Raise (RuntimeError not_authenticated_msg), State demo []).
Proof.
  exact (stream_quotes_checks_no_credentials demo [PStr "X"] quiet 20
           world_scenario venue_abc_xyz [] eq_refl).
Defined.

(** C10 as stated fails: no login has succeeded, for the only one was
    answered with a [CST] header alone and raised; [stream_quotes] then
    sends a subscribe message whose [cst] is the token [abc], not
    null. *)
Lemma stream_quotes_sends_retained_token :
  fst (login venue_cst_only fresh) = Raise (RuntimeError login_failed_msg) /\
  unauthenticated (self (snd (login venue_cst_only fresh))) /\
  exists m rest,
    snd (stream_quotes (self (snd (login venue_cst_only fresh)))
                       [PStr "X"] quiet 20 world_scenario)
    = Connect WS_URL 20 :: Send (PDict m) :: rest /\
    m !! "cst" = Some (PStr "abc") /\
    m !! "securityToken" = Some PNone.
Proof.
  split; [reflexivity|]. split; [reflexivity|].
  eexists. eexists. split; [vm_compute; reflexivity|].
  split; reflexivity.
Qed.

(* ===================================================================== *)
(** * The failure paths, run *)
(* ===================================================================== *)

Lemma place_market_order_post_rejected_403 :
  place_market_order venue_rejects "BTCUSD" "buy" (NInt 1) risk_profit logged_in
  = (Raise (HTTPError post_BTCUSD 403), logged logged_in [post_BTCUSD]).
Proof.
  exact (place_market_order_post_rejected venue_rejects logged_in "abc" "xyz"
           eq_refl eq_refl eq_refl eq_refl "BTCUSD" "buy" (NInt 1) risk_profit
           float_one (Response 403 ∅ None) eq_refl eq_refl eq_refl).
Defined.

Lemma place_market_order_confirm_failed_404 :
  place_market_order venue_unconfirmed "BTCUSD" "buy" (NInt 1) risk_profit logged_in
  = (Raise (HTTPError confirm_D1 404), logged logged_in [post_BTCUSD; confirm_D1]).
Proof.
  exact (place_market_order_confirm_failed venue_unconfirmed logged_in "abc" "xyz"
           eq_refl eq_refl eq_refl eq_refl "BTCUSD" "buy" (NInt 1) risk_profit
           float_one
           (Response 200 ∅ (Some (PDict {[ "dealReference" := PStr "D1" ]})))
           {[ "dealReference" := PStr "D1" ]} (PStr "D1") (Response 404 ∅ None)
           eq_refl eq_refl eq_refl eq_refl eq_refl eq_refl eq_refl).
Defined.

Lemma login_http_error_401 :
  login venue_unauthorized logged_in
  = (Raise (HTTPError (session_request (self logged_in)) 401),
     logged logged_in [session_request (self logged_in)]).
Proof.
  exact (login_http_error venue_unauthorized logged_in
           (Response 401 {[ "CST" := "def"; "X-SECURITY-TOKEN" := "uvw" ]} None)
           eq_refl eq_refl).
Defined.

Lemma stream_quotes_scenario_ends :
  exists res evs,
    stream_quotes demo [PStr "X"] quiet 20 world_scenario
    = (Some res, (evs ++ [Close])%list).
Proof.
  refine (stream_quotes_ends demo [PStr "X"] quiet 20 world_scenario 0 [1; 2; 3; 25]
            eq_refl eq_refl _).
  exists 3%nat, 25. repeat split; [lia | simpl; lia].
Defined.

(* ===================================================================== *)
(** * More on the REST client: what the calls keep and what they send *)
(* ===================================================================== *)

Lemma truthy_Some o : truthy o = true -> exists a, o = Some a.
Proof. destruct o as [a|]; [by exists a | discriminate]. Qed.

Lemma authenticated_tokens c :
  truthy (cst c) && truthy (sec c) = true ->
  exists a b, cst c = Some a /\ sec c = Some b /\
              truthy (Some a) = true /\ truthy (Some b) = true.
Proof.
  intros H. apply andb_true_iff in H as [Ha Hb].
  destruct (truthy_Some _ Ha) as [a Ea]. destruct (truthy_Some _ Hb) as [b Eb].
  exists a, b. by rewrite <- Ea, <- Eb.
Qed.

(** What a call leaves behind: the same client, and a log that has
    grown by the requests of the call. *)
Lemma perform_logged net k s :
  exists new,
    snd (perform net k s) = logged s new /\
    (length new <= 2)%nat /\
    (match k with
     | PlaceMarketOrder _ _ _ _ => True
     | _ => (length new <= 1)%nat
     end).
Proof.
  destruct (truthy (cst (self s)) && truthy (sec (self s))) eqn:Hauth.
  - destruct (authenticated_tokens _ Hauth) as (a & b & Ha & Hb & Ta & Tb).
    destruct k as [|term epics|epic direction size risk]; simpl.
    + rewrite (ping_authenticated net s a b Ha Hb Ta Tb).
      eexists [_]. simpl. repeat split; lia.
    + rewrite (search_markets_authenticated net s a b Ha Hb Ta Tb).
      eexists [_]. simpl. repeat split; lia.
    + destruct (float size) as [f|e] eqn:Hf.
      * rewrite (place_market_order_authenticated net s a b Ha Hb Ta Tb
                   epic direction size risk f Hf). cbv zeta.
        destruct (net (sent s) _) as [r|why];
          [|eexists [_]; simpl; repeat split; lia].
        destruct (error_status r); [eexists [_]; simpl; repeat split; lia|].
        destruct (resp_json r) as [body|];
          [|eexists [_]; simpl; repeat split; lia].
        destruct (get body "dealReference") as [d|e];
          [|eexists [_]; simpl; repeat split; lia].
        eexists [_; _]. simpl. repeat split; lia.
      * exists []. unfold place_market_order. run_monad. rewrite Hf. simpl.
        rewrite logged_nil. repeat split; simpl; lia.
  - exists []. rewrite logged_nil.
    destruct k as [|term epics|epic direction size risk]; simpl.
    + rewrite unauthenticated_ping by exact Hauth. repeat split; simpl; lia.
    + rewrite unauthenticated_search_markets by exact Hauth.
      repeat split; simpl; lia.
    + rewrite unauthenticated_place_market_order by exact Hauth.
      repeat split; simpl; lia.
Qed.

(** X5. [ping], [search_markets] and [place_market_order] never write to
    the client: whatever the venue answers, and whether or not tokens
    are stored, the client after the call is the client before it, and
    the log has only grown, by at most one request for [ping] and
    [search_markets] and by at most two for [place_market_order]. *)
Theorem calls_keep_the_client net k s :
  self (snd (perform net k s)) = self s /\
  exists new,
    sent (snd (perform net k s)) = (sent s ++ new)%list /\
    (length new <= 2)%nat /\
    (match k with
     | PlaceMarketOrder _ _ _ _ => True
     | _ => (length new <= 1)%nat
     end).
Proof.
  destruct (perform_logged net k s) as (new & E & Hlen & Hk).
  rewrite E. split; [reflexivity|].
  exists new. split; [reflexivity|]. split; [exact Hlen | exact Hk].
Qed.

(** [login] logs its one request whatever becomes of it. *)
Lemma login_logs_session net s :
  sent (snd (login net s)) = (sent s ++ [session_request (self s)])%list.
Proof.
  unfold login, http. run_monad.
  destruct (net (sent s) (session_request (self s))) as [r|why];
    [|reflexivity].
  simpl. destruct (error_status r); [reflexivity|]. simpl.
  destruct (negb (truthy (resp_headers r !! "CST"))
            || negb (truthy (resp_headers r !! "X-SECURITY-TOKEN")));
    reflexivity.
Qed.

(** X6. [login] sends exactly one request, the POST of the session,
    whatever becomes of it, and touches nothing of the client but [cst]
    and [sec]. It returns only [True], and only with both tokens stored
    and not empty, so that [_auth_headers] succeeds right after it. *)
Theorem login_sends_once_and_returns_authenticated net s :
  sent (snd (login net s)) = (sent s ++ [session_request (self s)])%list /\
  base_url (self (snd (login net s))) = base_url (self s) /\
  api_key (self (snd (login net s))) = api_key (self s) /\
  identifier (self (snd (login net s))) = identifier (self s) /\
  api_pass (self (snd (login net s))) = api_pass (self s) /\
  (forall b, fst (login net s) = Ok b ->
     b = true /\
     truthy (cst (self (snd (login net s)))) = true /\
     truthy (sec (self (snd (login net s)))) = true /\
     exists h, _auth_headers (snd (login net s)) = (Ok h, snd (login net s))).
Proof.
  destruct (net (sent s) (session_request (self s))) as [r|why] eqn:Hnet.
  - destruct (error_status r) eqn:Hst.
    + unfold login, http. run_monad. rewrite Hnet, Hst. simpl.
      do 5 (split; [reflexivity|]). intros b Hb. discriminate Hb.
    + rewrite (login_stores_headers net s r Hnet Hst). simpl.
      do 5 (split; [reflexivity|]). intros b Hb.
      destruct (truthy (resp_headers r !! "CST")) eqn:Ta;
        [|discriminate Hb].
      destruct (truthy (resp_headers r !! "X-SECURITY-TOKEN")) eqn:Tb;
        [|discriminate Hb].
      simpl in Hb. injection Hb as <-.
      do 3 (split; [reflexivity|]).
      destruct (truthy_Some _ Ta) as [t Et]. destruct (truthy_Some _ Tb) as [u Eu].
      eexists. apply (auth_headers_ok _ t u);
        [exact Et | exact Eu | by rewrite <- Et | by rewrite <- Eu].
  - unfold login, http. run_monad. rewrite Hnet. simpl.
    do 5 (split; [reflexivity|]). intros b Hb. discriminate Hb.
Qed.

Lemma upper_ascii_idempotent a : upper_ascii (upper_ascii a) = upper_ascii a.
Proof.
  destruct a as [[] [] [] [] [] [] [] []]; vm_compute; reflexivity.
Qed.

Lemma upper_idempotent s : upper (upper s) = upper s.
Proof.
  induction s as [|a s IH]; simpl; [reflexivity|].
  by rewrite upper_ascii_idempotent, IH.
Qed.

(** X7. The direction of an order is read without regard to case: an
    order whose direction is already upper-cased goes exactly as the
    order with the direction as typed, for every venue and client. *)
Theorem direction_case_is_ignored net epic direction size risk s :
  place_market_order net epic (upper direction) size risk s
  = place_market_order net epic direction size risk s.
Proof.
  unfold place_market_order. run_monad.
  destruct (float size) as [f|e]; simpl; [|reflexivity].
  unfold order_payload. by rewrite upper_idempotent.
Qed.

Lemma filter_risk_insert_None (risk : gmap string pyval) k :
  filter (fun kv : string * pyval => is_None kv.2 = false) (<[k:=PNone]> risk)
  = filter (fun kv : string * pyval => is_None kv.2 = false) (delete k risk).
Proof.
  apply map_eq. intros i. rewrite !filter_risk_not_None.
  destruct (decide (k = i)) as [->|Hne].
  - by rewrite lookup_insert_eq, lookup_delete_eq.
  - by rewrite lookup_insert_ne, lookup_delete_ne.
Qed.

(** X8. A risk keyword passed as [None] is a keyword not passed: for
    keyword arguments that Python accepts (none of them names a
    parameter of the method), the call with [k=None] among them is a
    call Python accepts without [k] too, and the order goes exactly as
    if the keyword had been left out, for every venue and client. *)
Theorem none_keyword_is_left_out net epic direction size risk k s :
  keyword_args (<[k:=PNone]> risk) ->
  keyword_args (delete k risk) /\
  place_market_order net epic direction size (<[k:=PNone]> risk) s
  = place_market_order net epic direction size (delete k risk) s.
Proof.
  intros (H1 & H2 & H3 & H4). split.
  - apply lookup_insert_None in H1 as [H1 _].
    apply lookup_insert_None in H2 as [H2 _].
    apply lookup_insert_None in H3 as [H3 _].
    apply lookup_insert_None in H4 as [H4 _].
    unfold keyword_args. rewrite !lookup_delete_None. tauto.
  - unfold place_market_order. run_monad.
    destruct (float size) as [f|e]; simpl; [|reflexivity].
    unfold order_payload. by rewrite filter_risk_insert_None.
Qed.

Lemma none_keyword_is_left_out_stopDistance :
  (<[ "stopDistance" := PNone ]> risk_profit : gmap string pyval)
  = {[ "profitDistance" := PInt 10; "stopDistance" := PNone ]} /\
  delete "stopDistance" risk_profit = risk_profit /\
  keyword_args (delete "stopDistance" risk_profit) /\
  place_market_order venue_D1 "BTCUSD" "buy" (NInt 1)
    (<[ "stopDistance" := PNone ]> risk_profit) logged_in
  = place_market_order venue_D1 "BTCUSD" "buy" (NInt 1)
      (delete "stopDistance" risk_profit) logged_in.
Proof.
  split; [vm_compute; reflexivity|]. split; [vm_compute; reflexivity|].
  refine (none_keyword_is_left_out venue_D1 "BTCUSD" "buy" (NInt 1) risk_profit
            "stopDistance" logged_in _).
  repeat split; reflexivity.
Defined.

(** X9. What the venue receives as null. With both tokens stored,
    keyword arguments in [risk] and a [size] that [float] accepts, the
    first request of an order is the POST whose JSON body is the payload
    of lines 65-66, and that payload holds [None] at one place only:
    under [epic], and only when the caller passed [None] as [epic]. No
    risk keyword is posted as null, and neither is the direction or the
    size. *)
Theorem posted_None_only_as_epic net s a b epic direction size f risk :
  cst (self s) = Some a -> sec (self s) = Some b ->
  a <> "" -> b <> "" ->
  keyword_args risk ->
  float size = Ok f ->
  let h : gmap string string := {[ "CST" := a; "X-SECURITY-TOKEN" := b ]} in
  let payload := order_payload_of epic direction f risk in
  let post := positions_request (self s) h payload in
  (exists rest,
     sent (snd (place_market_order_of net epic direction size risk s))
     = (sent s ++ post :: rest)%list) /\
  r_method post = POST /\
  r_json post = Some (PDict payload) /\
  forall k, payload !! k = Some PNone <-> k = "epic" /\ epic = PNone.
Proof.
  intros Hc Hs Na Nb Hk Hf h payload post.
  split.
  { destruct (place_market_order_of_sends net s a b epic direction size risk f
                Hc Hs (truthy_nonempty a Na) (truthy_nonempty b Nb) Hf)
      as (rest & Hsent & _).
    exists rest. fold h in Hsent. fold payload in Hsent. fold post in Hsent.
    by rewrite Hsent. }
  split; [reflexivity|]. split; [reflexivity|].
  destruct (order_payload_of_lookup epic direction f risk Hk)
    as (He & Hd & Hsz & Hr).
  fold payload in He, Hd, Hsz, Hr.
  intros k. split.
  - intros H.
    destruct (decide (k = "epic")) as [->|Ke].
    { rewrite He in H. split; [reflexivity | congruence]. }
    destruct (decide (k = "direction")) as [->|Kd].
    { rewrite Hd in H. discriminate H. }
    destruct (decide (k = "size")) as [->|Ks].
    { rewrite Hsz in H. discriminate H. }
    rewrite (Hr k Ke Kd Ks) in H.
    destruct (risk !! k) as [[]|]; discriminate H.
  - intros [-> ->]. exact He.
Qed.

Lemma posted_None_only_as_epic_BTCUSD :
  order_payload_of (PStr "BTCUSD") "buy" float_one
    {[ "profitDistance" := PInt 10; "stopDistance" := PNone ]}
  = {[ "epic" := PStr "BTCUSD"; "direction" := PStr "BUY";
       "size" := PFloat float_one; "profitDistance" := PInt 10 ]} /\
  (exists rest,
     sent (snd (place_market_order_of venue_D1 (PStr "BTCUSD") "buy" (NInt 1)
                  {[ "profitDistance" := PInt 10; "stopDistance" := PNone ]}
                  logged_in))
     = (sent logged_in
        ++ positions_request (self logged_in) tokens_abc_xyz
             (order_payload_of (PStr "BTCUSD") "buy" float_one
                {[ "profitDistance" := PInt 10; "stopDistance" := PNone ]})
        :: rest)%list) /\
  forall k,
    order_payload_of (PStr "BTCUSD") "buy" float_one
      {[ "profitDistance" := PInt 10; "stopDistance" := PNone ]} !! k = Some PNone
    <-> k = "epic" /\ PStr "BTCUSD" = PNone.
Proof.
  split; [vm_compute; reflexivity|].
  pose proof (posted_None_only_as_epic venue_D1 logged_in "abc" "xyz"
                (PStr "BTCUSD") "buy" (NInt 1) float_one
                {[ "profitDistance" := PInt 10; "stopDistance" := PNone ]}
                eq_refl eq_refl ltac:(discriminate) ltac:(discriminate)
                ltac:(repeat split; reflexivity) eq_refl) as H.
  cbv zeta in H. destruct H as (Hsent & _ & _ & Hnone).
  split; [exact Hsent | exact Hnone].
Defined.

(* ===================================================================== *)
(** * The base URL *)
(* ===================================================================== *)

Lemma rstrip_slash_snoc s : rstrip_slash (s ++ "/") = rstrip_slash s.
Proof.
  induction s as [|a s IH]; [reflexivity|].
  simpl. by rewrite IH.
Qed.

Lemma snoc_not_empty (t : string) : (t ++ "/")%string <> "".
Proof. by destruct t. Qed.

Lemma rstrip_slash_no_trailing s : forall t, rstrip_slash s <> (t ++ "/")%string.
Proof.
  induction s as [|a s IH]; intros t; simpl.
  - intros H. symmetry in H. by apply snoc_not_empty in H.
  - destruct (rstrip_slash s) as [|b r] eqn:E.
    + destruct (Ascii.eqb_spec a "/") as [->|Hne].
      * intros H. symmetry in H. by apply snoc_not_empty in H.
      * destruct t as [|c t]; simpl; intros H.
        -- inversion H. contradiction.
        -- inversion H as [[Ha Ht]]. symmetry in Ht.
           by apply snoc_not_empty in Ht.
    + destruct t as [|c t]; simpl; intros H.
      * inversion H.
      * inversion H as [[Ha Ht]]. by apply (IH t).
Qed.

Lemma rstrip_slash_fixed s :
  (forall t, s <> (t ++ "/")%string) -> rstrip_slash s = s.
Proof.
  induction s as [|a s IH]; intros H; [reflexivity|]. simpl.
  destruct s as [|b s].
  - simpl. destruct (Ascii.eqb_spec a "/") as [->|Hne]; [|reflexivity].
    by destruct (H "").
  - rewrite IH; [reflexivity|].
    intros t Ht. apply (H (String a t)). simpl. by rewrite Ht.
Qed.

(** X10. The base URL never ends with a slash, whatever
    [CAPITAL_BASE_URL] holds; a value given with one more trailing slash
    gives the same base URL, and so the same run of the driver; a value
    without trailing slash is taken as it is; and without the variable
    the demo endpoint is used. *)
Theorem base_url_ignores_trailing_slashes env u API_KEY IDENTIFIER API_PASS net w :
  (forall t, BASE_URL env <> (t ++ "/")%string) /\
  BASE_URL (Some (u ++ "/")%string) = BASE_URL (Some u) /\
  main (Some (u ++ "/")%string) API_KEY IDENTIFIER API_PASS net w
  = main (Some u) API_KEY IDENTIFIER API_PASS net w /\
  ((forall t, u <> (t ++ "/")%string) -> BASE_URL (Some u) = u) /\
  BASE_URL None = "https://demo-api-capital.backend-capital.com".
Proof.
  split; [|split; [|split; [|split]]].
  - intros t. apply rstrip_slash_no_trailing.
  - unfold BASE_URL. simpl. apply rstrip_slash_snoc.
  - unfold main, BASE_URL. simpl. by rewrite rstrip_slash_snoc.
  - intros H. unfold BASE_URL. simpl. by apply rstrip_slash_fixed.
  - reflexivity.
Qed.

(* ===================================================================== *)
(** * The keepalive thread *)
(* ===================================================================== *)

Lemma pinger_all_sent ok :
  Forall (fun t : CapitalClient * option exn => snd t = None) ok ->
  pinger ok = (None, pings ok).
Proof.
  induction 1 as [|[c o] ok Ho _ IH]; [reflexivity|].
  simpl in Ho. subst o. simpl. by rewrite IH.
Qed.

(** X11. The keepalive thread ends at the first [send] that raises, with
    that exception, and does nothing after it: whatever turns would
    follow are never taken. Until then every turn sleeps 540 seconds and
    then sends one ping message built from the tokens stored at that
    moment; while sends go through the thread does not end. *)
Theorem pinger_stops_at_first_failure ok c e rest :
  Forall (fun t : CapitalClient * option exn => snd t = None) ok ->
  pinger (ok ++ (c, Some e) :: rest)
  = (Some e, (pings ok ++ [Slept 540; Pinged (keepalive_msg c)])%list) /\
  pinger ok = (None, pings ok) /\
  (exists m, keepalive_msg c = PDict m /\
             m !! "destination" = Some (PStr "ping") /\
             m !! "cst" = Some (opt_str (cst c)) /\
             m !! "securityToken" = Some (opt_str (sec c))).
Proof.
  intros Hok. split; [|split].
  - induction Hok as [|[c' o] ok Ho _ IH]; [reflexivity|].
    simpl in Ho. subst o. simpl. by rewrite IH.
  - by apply pinger_all_sent.
  - eexists. split; [reflexivity|]. repeat split; reflexivity.
Qed.

Lemma pinger_stops_at_first_failure_witness :
  pinger ([(demo, None); (self logged_in, None)]
            ++ (self logged_in, Some (WebSocketException "closed"))
            :: [(self logged_in, None)])
  = (Some (WebSocketException "closed"),
     (pings [(demo, None); (self logged_in, None)]
        ++ [Slept 540; Pinged (keepalive_msg (self logged_in))])%list) /\
  pinger [(demo, None); (self logged_in, None)]
  = (None, pings [(demo, None); (self logged_in, None)]) /\
  (exists m, keepalive_msg (self logged_in) = PDict m /\
             m !! "destination" = Some (PStr "ping") /\
             m !! "cst" = Some (opt_str (cst (self logged_in))) /\
             m !! "securityToken" = Some (opt_str (sec (self logged_in)))).
Proof.
  refine (pinger_stops_at_first_failure
            [(demo, None); (self logged_in, None)] (self logged_in)
            (WebSocketException "closed") [(self logged_in, None)] _).
  repeat constructor.
Defined.

(* ===================================================================== *)
(** * More on the receive loop *)
(* ===================================================================== *)

Lemma delivered_app evs evs' :
  delivered (evs ++ evs') = (delivered evs ++ delivered evs')%list.
Proof. apply omap_app. Qed.

Lemma frames_read_app evs evs' :
  frames_read (evs ++ evs') = (frames_read evs ++ frames_read evs')%list.
Proof. apply omap_app. Qed.

(** One message: the consumer is called with the payload of a quote
    frame and with nothing else. *)
Lemma dispatch_delivers on_quote f :
  delivered (snd (dispatch on_quote f))
  = match quote_of f with Some p => [p] | None => [] end /\
  frames_read (snd (dispatch on_quote f)) = [].
Proof.
  unfold quote_of. destruct (String.eqb_spec (raw f) "") as [E|E].
  - by rewrite dispatch_empty.
  - rewrite dispatch_text by exact E.
    destruct (decoded f) as [[| | | | | |m]|]; try (split; reflexivity).
    destruct (m !! "destination") as [[| | | |d| |]|]; simpl;
      try (split; reflexivity).
    destruct (String.eqb d "quote"); [|split; reflexivity].
    destruct (m !! "payload") as [p|]; [|split; reflexivity].
    split; reflexivity.
Qed.

Lemma receive_loop_delivers on_quote t_end clock :
  forall inbox,
    delivered (snd (receive_loop on_quote t_end clock inbox))
    = omap quote_of (frames_read (snd (receive_loop on_quote t_end clock inbox))).
Proof.
  induction clock as [|now clock IH]; intros inbox; simpl; [reflexivity|].
  destruct (now <? t_end); [|reflexivity].
  destruct inbox as [|[f|e] inbox]; [reflexivity| |reflexivity].
  destruct (dispatch_delivers on_quote f) as [Hd Hr].
  destruct (dispatch on_quote f) as [[[]|e] evs]; simpl in *.
  - rewrite delivered_app, frames_read_app, Hd, Hr, IH. simpl.
    by destruct (quote_of f).
  - rewrite Hd, Hr. simpl. by destruct (quote_of f).
Qed.

(** X12. Quotes reach the consumer in the order they were read, once
    each: over any session, the payloads the consumer was called with
    are exactly the payloads of the quote messages among the frames
    read, in reading order; no other frame, and no frame that was not
    read, ever reaches it. *)
Theorem quotes_delivered_in_order c epics on_quote run_seconds w :
  delivered (snd (stream_quotes c epics on_quote run_seconds w))
  = omap quote_of
      (frames_read (snd (stream_quotes c epics on_quote run_seconds w))).
Proof.
  destruct (connect_error w) as [e|] eqn:Hc;
    [unfold stream_quotes; by rewrite Hc|].
  rewrite stream_quotes_connected by exact Hc.
  unfold try_finally, subscribe_and_receive.
  destruct (send_error w); [reflexivity|].
  destruct (clock w) as [|t0 cl]; [reflexivity|]. simpl.
  pose proof (receive_loop_delivers on_quote (t0 + run_seconds) cl (inbox w)) as H.
  destruct (receive_loop on_quote (t0 + run_seconds) cl (inbox w))
    as [[res|] evs]; simpl in *.
  - rewrite delivered_app, frames_read_app, omap_app, H. reflexivity.
  - exact H.
Qed.

(** X13. A session of no duration reads nothing: when [run_seconds] is
    zero or negative and the clock does not run backwards between its
    first two readings, [stream_quotes] opens the connection, sends the
    subscribe message, closes and returns, whatever is waiting in the
    inbox. *)
Theorem zero_duration_reads_nothing
    c epics on_quote run_seconds t0 t1 clock inbox close_err :
  run_seconds <= 0 ->
  t0 <= t1 ->
  stream_quotes c epics on_quote run_seconds
    (World None None (t0 :: t1 :: clock) inbox close_err)
  = (Some (Ok tt),
     [Connect WS_URL 20; Send (subscribe_msg c epics); Close]).
Proof.
  intros Hrun Ht. rewrite stream_quotes_connected by reflexivity.
  unfold subscribe_and_receive. simpl.
  destruct (Z.ltb_spec t1 (t0 + run_seconds)) as [Hlt|_]; [lia|].
  reflexivity.
Qed.

Lemma zero_duration_reads_nothing_witness :
  stream_quotes demo [PStr "X"] quiet 0
    (World None None [100; 100; 101] [Recv frame_quote_X] None)
  = (Some (Ok tt),
     [Connect WS_URL 20; Send (subscribe_msg demo [PStr "X"]); Close]).
Proof.
  refine (zero_duration_reads_nothing demo [PStr "X"] quiet 0 100 100 [101]
            [Recv frame_quote_X] None _ _); lia.
Defined.

(* ===================================================================== *)
(** * The driver *)
(* ===================================================================== *)

(** How a session ends does not depend on the client nor on the list of
    identifiers. *)
Lemma stream_quotes_outcome_independent c epics c' epics' on_quote run_seconds w :
  fst (stream_quotes c epics on_quote run_seconds w)
  = fst (stream_quotes c' epics' on_quote run_seconds w).
Proof.
  unfold stream_quotes, try_finally, subscribe_and_receive, except_pass.
  destruct (connect_error w); [reflexivity|].
  destruct (send_error w); [reflexivity|].
  destruct (clock w) as [|t0 cl]; [reflexivity|]. simpl.
  destruct (fst (receive_loop on_quote (t0 + run_seconds) cl (inbox w)));
    reflexivity.
Qed.

Lemma stream_quotes_returned_closed c epics on_quote run_seconds w u :
  fst (stream_quotes c epics on_quote run_seconds w) = Some (Ok u) ->
  exists evs,
    snd (stream_quotes c epics on_quote run_seconds w) = (evs ++ [Close])%list.
Proof.
  destruct (connect_error w) as [e|] eqn:Hc.
  - unfold stream_quotes. rewrite Hc. simpl. intros H. discriminate H.
  - rewrite stream_quotes_connected by exact Hc. unfold try_finally.
    destruct (subscribe_and_receive c epics on_quote run_seconds w)
      as [[res|] evs]; simpl; intros H; [|discriminate H].
    by exists (Connect WS_URL 20 :: evs).
Qed.

Lemma ping_returned_sent_one net s v s' :
  ping net s = (Ok v, s') -> exists rq, s' = logged s [rq].
Proof.
  destruct (truthy (cst (self s)) && truthy (sec (self s))) eqn:Hauth.
  - destruct (authenticated_tokens _ Hauth) as (a & b & Ha & Hb & Ta & Tb).
    rewrite (ping_authenticated net s a b Ha Hb Ta Tb).
    intros H. injection H as _ <-. by eexists.
  - rewrite unauthenticated_ping by exact Hauth. intros H. discriminate H.
Qed.

Lemma search_markets_returned_sent_one net term epics s v s' :
  search_markets net term epics s = (Ok v, s') -> exists rq, s' = logged s [rq].
Proof.
  destruct (truthy (cst (self s)) && truthy (sec (self s))) eqn:Hauth.
  - destruct (authenticated_tokens _ Hauth) as (a & b & Ha & Hb & Ta & Tb).
    rewrite (search_markets_authenticated net s a b Ha Hb Ta Tb).
    intros H. injection H as _ <-. by eexists.
  - rewrite unauthenticated_search_markets by exact Hauth.
    intros H. discriminate H.
Qed.

(** An order for any value of [epic] sends at most two requests and
    keeps the client. *)
Lemma place_market_order_of_requests net epic direction size risk s :
  exists new,
    snd (place_market_order_of net epic direction size risk s) = logged s new /\
    (length new <= 2)%nat.
Proof.
  unfold place_market_order_of, http. run_monad.
  destruct (float size) as [f|e]; simpl;
    [|exists []; rewrite logged_nil; split; [reflexivity | simpl; lia]].
  destruct (truthy (cst (self s)) && truthy (sec (self s))) eqn:Hauth.
  2:{ rewrite (auth_headers_fail s Hauth). simpl.
      exists []. rewrite logged_nil. split; [reflexivity | simpl; lia]. }
  destruct (authenticated_tokens _ Hauth) as (a & b & Ha & Hb & Ta & Tb).
  rewrite (auth_headers_ok s a b Ha Hb Ta Tb). simpl.
  set (rq := positions_request (self s) _ _).
  destruct (net (sent s) rq) as [r|why]; simpl;
    [|exists [rq]; split; [reflexivity | simpl; lia]].
  destruct (error_status r); simpl;
    [exists [rq]; split; [reflexivity | simpl; lia]|].
  destruct (resp_json r) as [body|]; simpl;
    [|exists [rq]; split; [reflexivity | simpl; lia]].
  destruct (get body "dealReference") as [d|e]; simpl;
    [|exists [rq]; split; [reflexivity | simpl; lia]].
  pose proof (auth_headers_ok (logged s [rq]) a b Ha Hb Ta Tb) as Hh.
  unfold logged in Hh. simpl in Hh. rewrite Hh. clear Hh. simpl.
  set (rq' := confirms_request (self s) _ d).
  assert (Hlog : {| self := self s; sent := ((sent s ++ [rq]) ++ [rq'])%list |}
                 = logged s [rq; rq']).
  { unfold logged. simpl. by rewrite <- app_assoc. }
  exists [rq; rq']. split; [|simpl; lia].
  destruct (net _ rq') as [conf|why]; simpl; [|exact Hlog].
  destruct (error_status conf); simpl; [exact Hlog|].
  destruct (resp_json conf); simpl; exact Hlog.
Qed.

(** For a string it is [place_market_order]. *)
Lemma place_market_order_of_string net epic direction size risk :
  place_market_order_of net (PStr epic) direction size risk
  = place_market_order net epic direction size risk.
Proof. reflexivity. Qed.

Ltac before_the_socket :=
  simpl;
  split; [eexists; split; [reflexivity | simpl; lia]|];
  split; [intros H; by destruct H|];
  split; [intros H; simpl in H; lia | intros H; discriminate H].

(** X14. The driver keeps to one order of operations, whatever the venue
    and the socket do. Its first request is the login POST and it sends
    at most five; the socket is opened only once three requests (login,
    ping, search) have gone out; a fourth request, the order, is sent
    only after the session has returned without exception and the
    socket has been closed; and while the session runs no request is
    sent. *)
Theorem main_order_of_operations env API_KEY IDENTIFIER API_PASS net w :
  (exists rest,
     sent (client (main env API_KEY IDENTIFIER API_PASS net w))
     = session_request (__init__ (BASE_URL env) API_KEY IDENTIFIER API_PASS)
         :: rest /\
     (length rest <= 4)%nat) /\
  (socket (main env API_KEY IDENTIFIER API_PASS net w) <> [] ->
   (3 <= length (sent (client (main env API_KEY IDENTIFIER API_PASS net w))))%nat) /\
  ((3 < length (sent (client (main env API_KEY IDENTIFIER API_PASS net w))))%nat ->
   fst (stream_quotes (self (client (main env API_KEY IDENTIFIER API_PASS net w)))
                      [] print_quote 20 w) = Some (Ok tt) /\
   (exists evs,
      socket (main env API_KEY IDENTIFIER API_PASS net w) = (evs ++ [Close])%list) /\
   ending_of (main env API_KEY IDENTIFIER API_PASS net w) <> Running) /\
  (ending_of (main env API_KEY IDENTIFIER API_PASS net w) = Running ->
   length (sent (client (main env API_KEY IDENTIFIER API_PASS net w))) = 3%nat).
Proof.
  unfold main.
  set (cap := State (__init__ (BASE_URL env) API_KEY IDENTIFIER API_PASS) []).
  pose proof (login_logs_session net cap) as Hs1.
  change (session_request (__init__ (BASE_URL env) API_KEY IDENTIFIER API_PASS))
    with (session_request (self cap)).
  set (sess := session_request (self cap)) in *.
  destruct (login net cap) as [[b|e] [c1 l1]]; simpl in Hs1; subst l1;
    [|before_the_socket].
  set (s1 := {| self := c1; sent := [sess] |}).
  destruct (ping net s1) as [[pong|e] s2] eqn:E2.
  2:{ destruct (perform_logged net Ping s1) as (new & Hnew & _ & Hlen).
      simpl in Hnew. rewrite E2 in Hnew. simpl in Hnew. subst s2.
      before_the_socket. }
  destruct (ping_returned_sent_one net s1 pong s2 E2) as (rq2 & ->).
  destruct (search_markets net "BTC" None (logged s1 [rq2]))
    as [[markets|e] s3] eqn:E3.
  2:{ destruct (perform_logged net (SearchMarkets "BTC" None)
                  (logged s1 [rq2])) as (new & Hnew & _ & Hlen).
      simpl in Hnew. rewrite E3 in Hnew. simpl in Hnew. subst s3.
      before_the_socket. }
  destruct (search_markets_returned_sent_one net "BTC" None _ markets s3 E3)
    as (rq3 & ->).
  destruct (first_epic_of markets) as [cr|first_epic]; [before_the_socket|].
  set (s3 := logged (logged s1 [rq2]) [rq3]).
  cbv zeta.
  pose proof (stream_quotes_returned_closed (self s3) [first_epic] print_quote 20 w)
    as Hclosed.
  pose proof (stream_quotes_outcome_independent (self s3) [first_epic]
                (self s3) [] print_quote 20 w) as Hind.
  destruct (stream_quotes (self s3) [first_epic] print_quote 20 w)
    as [[[[]|e]|] evs]; simpl in Hclosed, Hind.
  - destruct (truth first_epic).
    + destruct (place_market_order_of_requests net first_epic "BUY" (NInt 1)
                  demo_risk s3) as (new & Hnew & Hlen).
      assert (Hfin : forall (e : ending) out,
                 e <> Running ->
                 let r := Driver e (logged s3 new) evs out in
                 (exists rest, sent (client r) = sess :: rest /\ (length rest <= 4)%nat) /\
                 (socket r <> [] -> (3 <= length (sent (client r)))%nat) /\
                 ((3 < length (sent (client r)))%nat ->
                  fst (stream_quotes (self (client r)) [] print_quote 20 w)
                  = Some (Ok tt) /\
                  (exists evs', socket r = (evs' ++ [Close])%list) /\
                  ending_of r <> Running) /\
                 (ending_of r = Running -> length (sent (client r)) = 3%nat)).
      { intros en out Hen. simpl.
        split; [eexists; split; [reflexivity | rewrite ?length_app; simpl; lia]|].
        split; [intros _; rewrite ?length_app; simpl; lia|].
        split; [|intros H; contradiction].
        intros _. split; [by rewrite <- Hind|].
        split; [by apply (Hclosed tt) | exact Hen]. }
      destruct (place_market_order_of net first_epic "BUY" (NInt 1) demo_risk s3)
        as [[trade|e] s4]; simpl in Hnew; subst s4; apply Hfin; discriminate.
    + simpl. split; [eexists; split; [reflexivity | simpl; lia]|].
      split; [intros _; simpl; lia|].
      split; [intros H; simpl in H; lia | intros H; discriminate H].
  - simpl. split; [eexists; split; [reflexivity | simpl; lia]|].
    split; [intros _; simpl; lia|].
    split; [intros H; simpl in H; lia | intros H; discriminate H].
  - simpl. split; [eexists; split; [reflexivity | simpl; lia]|].
    split; [intros _; simpl; lia|].
    split; [intros H; simpl in H; lia | intros _; reflexivity].
Qed.

(** X15. What the driver does with a search that names no market. When
    the body holds an empty [markets] list, indexing it raises
    [IndexError]: the driver stops there, the socket is never opened and
    only the ping has been printed. When the first epic is [None] or
    otherwise false (and so when the body has no [markets] key at all,
    for which the default [[{}]] gives [None]), the driver still streams,
    subscribing to that one value, and places no order: its requests
    stay the three sent before the session. *)
Theorem main_without_market
    env API_KEY IDENTIFIER API_PASS net w s1 pong s2 m s3 :
  login net (State (__init__ (BASE_URL env) API_KEY IDENTIFIER API_PASS) [])
  = (Ok true, s1) ->
  ping net s1 = (Ok pong, s2) ->
  search_markets net "BTC" None s2 = (Ok (PDict m), s3) ->
  (m !! "markets" = Some (PList []) ->
   main env API_KEY IDENTIFIER API_PASS net w
   = Driver (Crashed IndexError) s3 [] [[PStr "Ping:"; pong]]) /\
  (forall v,
     first_epic_of (PDict m) = inr v -> truth v = false ->
     client (main env API_KEY IDENTIFIER API_PASS net w) = s3 /\
     socket (main env API_KEY IDENTIFIER API_PASS net w)
     = snd (stream_quotes (self s3) [v] print_quote 20 w) /\
     (fst (stream_quotes (self s3) [v] print_quote 20 w) = Some (Ok tt) ->
      ending_of (main env API_KEY IDENTIFIER API_PASS net w) = Finished)) /\
  (m !! "markets" = None -> first_epic_of (PDict m) = inr PNone).
Proof.
  intros H1 H2 H3. unfold main. rewrite H1, H2, H3.
  split; [|split].
  - intros Hm. unfold first_epic_of. by rewrite Hm.
  - intros v Hv Hfalse. rewrite Hv. cbv zeta. rewrite Hfalse.
    destruct (stream_quotes (self s3) [v] print_quote 20 w)
      as [[[[]|e]|] evs]; simpl; repeat split; intros H; discriminate H.
  - intros Hm. unfold first_epic_of. by rewrite Hm.
Qed.

Lemma main_without_market_witness :
  (({[ "markets" := PList [] ]} : gmap string pyval) !! "markets"
   = Some (PList []) ->
   main None "key" "user" "secret" (venue_with markets_none) world_scenario
   = Driver (Crashed IndexError) after_search []
            [[PStr "Ping:"; PDict {[ "status" := PStr "OK" ]}]]) /\
  (forall v,
     first_epic_of (PDict {[ "markets" := PList [] ]}) = inr v ->
     truth v = false ->
     client (main None "key" "user" "secret" (venue_with markets_none)
                  world_scenario) = after_search /\
     socket (main None "key" "user" "secret" (venue_with markets_none)
                  world_scenario)
     = snd (stream_quotes (self after_search) [v] print_quote 20 world_scenario) /\
     (fst (stream_quotes (self after_search) [v] print_quote 20 world_scenario)
      = Some (Ok tt) ->
      ending_of (main None "key" "user" "secret" (venue_with markets_none)
                      world_scenario) = Finished)) /\
  (({[ "markets" := PList [] ]} : gmap string pyval) !! "markets" = None ->
   first_epic_of (PDict {[ "markets" := PList [] ]}) = inr PNone).
Proof.
  exact (main_without_market None "key" "user" "secret"
           (venue_with markets_none) world_scenario
           (State cap_abc_xyz
              [session_request (__init__ (BASE_URL None) "key" "user" "secret")])
           (PDict {[ "status" := PStr "OK" ]})
           (State cap_abc_xyz
              [session_request (__init__ (BASE_URL None) "key" "user" "secret");
               ping_request cap_abc_xyz tokens_abc_xyz])
           {[ "markets" := PList [] ]} after_search
           eq_refl eq_refl eq_refl).
Defined.

(** The driver at a venue whose search names no [markets] key: it
    streams for [None] and sends nothing after the search. *)
Example main_no_markets_key :
  client (main None "key" "user" "secret" (venue_with markets_no_key)
               world_scenario) = after_search /\
  ending_of (main None "key" "user" "secret" (venue_with markets_no_key)
                  world_scenario) = Finished /\
  socket (main None "key" "user" "secret" (venue_with markets_no_key)
               world_scenario)
  = [Connect WS_URL 20; Send (subscribe_msg cap_abc_xyz [PNone]);
     Read (Recv frame_quote_X); Quote payload_X;
     Read (Recv frame_ping); Read (Recv frame_empty); Close].
Proof. vm_compute. repeat split; reflexivity. Qed.

(** X16. The order of the driver. When the search names a first epic
    that is a string and not empty, and the session returns, the driver
    goes on exactly as [place_market_order] does for that epic with
    direction BUY, size 1 and the three risk keywords: it finishes when
    the order returns and stops with its exception when it raises. The
    payload of that order holds [guaranteedStop] as [False], which is
    kept because it is not [None], and the size as the float 1.0. *)
Theorem main_places_the_order
    env API_KEY IDENTIFIER API_PASS net w s1 pong s2 markets s3 epic :
  login net (State (__init__ (BASE_URL env) API_KEY IDENTIFIER API_PASS) [])
  = (Ok true, s1) ->
  ping net s1 = (Ok pong, s2) ->
  search_markets net "BTC" None s2 = (Ok markets, s3) ->
  first_epic_of markets = inr (PStr epic) ->
  String.eqb epic "" = false ->
  fst (stream_quotes (self s3) [PStr epic] print_quote 20 w) = Some (Ok tt) ->
  client (main env API_KEY IDENTIFIER API_PASS net w)
  = snd (place_market_order net epic "BUY" (NInt 1) demo_risk s3) /\
  ending_of (main env API_KEY IDENTIFIER API_PASS net w)
  = match fst (place_market_order net epic "BUY" (NInt 1) demo_risk s3) with
    | Ok _ => Finished
    | Raise e => Crashed (Raised e)
    end /\
  (forall trade,
     fst (place_market_order net epic "BUY" (NInt 1) demo_risk s3) = Ok trade ->
     last (stdout (main env API_KEY IDENTIFIER API_PASS net w))
     = Some [PStr "Order result:"; trade]) /\
  float (NInt 1) = Ok float_one /\
  order_payload epic "BUY" float_one demo_risk
  = {[ "epic" := PStr epic; "direction" := PStr "BUY";
       "size" := PFloat float_one; "profitDistance" := PInt 10;
       "stopDistance" := PInt 10; "guaranteedStop" := PBool false ]}.
Proof.
  intros H1 H2 H3 Hepic Hne Hs. unfold main. rewrite H1, H2, H3, Hepic.
  cbv zeta. rewrite Hs. simpl truth. rewrite Hne. simpl negb. cbv iota.
  rewrite place_market_order_of_string.
  destruct (place_market_order net epic "BUY" (NInt 1) demo_risk s3)
    as [[trade|e] s4]; cbn [client ending_of stdout fst snd].
  - split; [reflexivity|]. split; [reflexivity|]. split.
    + intros t Ht. injection Ht as <-. by rewrite last_snoc.
    + split; [reflexivity | vm_compute; reflexivity].
  - split; [reflexivity|]. split; [reflexivity|]. split.
    + intros t Ht. discriminate Ht.
    + split; [reflexivity | vm_compute; reflexivity].
Qed.

Lemma main_places_the_order_BTCUSD :
  client (main None "key" "user" "secret" (venue_with markets_BTCUSD) world_scenario)
  = snd (place_market_order (venue_with markets_BTCUSD) "BTCUSD" "BUY" (NInt 1)
           demo_risk after_search) /\
  ending_of (main None "key" "user" "secret" (venue_with markets_BTCUSD)
                  world_scenario)
  = match fst (place_market_order (venue_with markets_BTCUSD) "BTCUSD" "BUY"
                 (NInt 1) demo_risk after_search) with
    | Ok _ => Finished
    | Raise e => Crashed (Raised e)
    end /\
  (forall trade,
     fst (place_market_order (venue_with markets_BTCUSD) "BTCUSD" "BUY" (NInt 1)
            demo_risk after_search) = Ok trade ->
     last (stdout (main None "key" "user" "secret" (venue_with markets_BTCUSD)
                        world_scenario))
     = Some [PStr "Order result:"; trade]) /\
  float (NInt 1) = Ok float_one /\
  order_payload "BTCUSD" "BUY" float_one demo_risk
  = {[ "epic" := PStr "BTCUSD"; "direction" := PStr "BUY";
       "size" := PFloat float_one; "profitDistance" := PInt 10;
       "stopDistance" := PInt 10; "guaranteedStop" := PBool false ]}.
Proof.
  exact (main_places_the_order None "key" "user" "secret"
           (venue_with markets_BTCUSD) world_scenario
           (State cap_abc_xyz
              [session_request (__init__ (BASE_URL None) "key" "user" "secret")])
           (PDict {[ "status" := PStr "OK" ]})
           (State cap_abc_xyz
              [session_request (__init__ (BASE_URL None) "key" "user" "secret");
               ping_request cap_abc_xyz tokens_abc_xyz])
           markets_BTCUSD after_search "BTCUSD"
           eq_refl eq_refl eq_refl eq_refl eq_refl eq_refl).
Defined.

(** The driver at that venue, run to its end: five requests, the
    session in between, and four lines printed besides the quote. *)
Example main_BTCUSD_run :
  ending_of (main None "key" "user" "secret" (venue_with markets_BTCUSD)
                  world_scenario) = Finished /\
  map (fun rq => (r_method rq, url_text (r_url rq)))
      (sent (client (main None "key" "user" "secret" (venue_with markets_BTCUSD)
                          world_scenario)))
  = [(POST, Some "https://demo-api-capital.backend-capital.com/api/v1/session");
     (GET, Some "https://demo-api-capital.backend-capital.com/api/v1/ping");
     (GET, Some "https://demo-api-capital.backend-capital.com/api/v1/markets");
     (POST, Some "https://demo-api-capital.backend-capital.com/api/v1/positions");
     (GET, Some "https://demo-api-capital.backend-capital.com/api/v1/confirms/D1")] /\
  stdout (main None "key" "user" "secret" (venue_with markets_BTCUSD) world_scenario)
  = [[PStr "Ping:"; PDict {[ "status" := PStr "OK" ]}];
     [PStr "Using epic:"; PStr "BTCUSD"];
     [payload_X];
     [PStr "Order result:";
      PDict {[ "dealReference" := PStr "D1";
               "confirm" := PDict {[ "dealStatus" := PStr "ACCEPTED" ]} ]}]].
Proof. vm_compute. repeat split; reflexivity. Qed.

(* ===================================================================== *)
(** * The search, unreadable answers and broken sockets *)
(* ===================================================================== *)

(** X17. [search_markets] on a client with both tokens sends one GET to
    /api/v1/markets whose parameters are [searchTerm] and, only for a
    list that is not empty, [epics] as the identifiers joined by commas,
    and no other; it returns the decoded body as it is, raises
    [HTTPError] on a 4xx or 5xx answer and [JSONDecodeError] on a body
    that is not JSON. An empty list is the same call as no list. *)
Theorem search_markets_outcomes net s a b term epics :
  cst (self s) = Some a -> sec (self s) = Some b ->
  truthy (Some a) = true -> truthy (Some b) = true ->
  let rq := markets_request (self s) {[ "CST" := a; "X-SECURITY-TOKEN" := b ]}
              (markets_params term epics) in
  snd (search_markets net term epics s) = logged s [rq] /\
  r_params rq !! "searchTerm" = Some term /\
  r_params rq !! "epics"
  = match epics with
    | Some (e :: l) => Some (join "," (e :: l))
    | _ => None
    end /\
  (forall k, k <> "searchTerm" -> k <> "epics" -> r_params rq !! k = None) /\
  (forall r v,
     net (sent s) rq = Reply r -> error_status r = false ->
     resp_json r = Some v -> fst (search_markets net term epics s) = Ok v) /\
  (forall r,
     net (sent s) rq = Reply r -> error_status r = false ->
     resp_json r = None ->
     fst (search_markets net term epics s) = Raise JSONDecodeError) /\
  (forall r,
     net (sent s) rq = Reply r -> error_status r = true ->
     fst (search_markets net term epics s) = Raise (HTTPError rq (status_code r))) /\
  search_markets net term (Some []) s = search_markets net term None s.
Proof.
  intros Ha Hb Ta Tb rq.
  rewrite (search_markets_authenticated net s a b Ha Hb Ta Tb term epics).
  cbv zeta. fold rq.
  split; [reflexivity|]. split; [|split; [|split]].
  - unfold rq, markets_params. simpl.
    destruct epics as [[|e l]|]; by simplify_map_eq.
  - unfold rq, markets_params. simpl.
    destruct epics as [[|e l]|]; by simplify_map_eq.
  - intros k Hk He. unfold rq, markets_params. simpl.
    destruct epics as [[|e l]|]; by simplify_map_eq.
  - split; [|split; [|split]].
    + intros r v Hr Hs Hj. simpl. by rewrite Hr, Hs, Hj.
    + intros r Hr Hs Hj. simpl. by rewrite Hr, Hs, Hj.
    + intros r Hr Hs. simpl. by rewrite Hr, Hs.
    + reflexivity.
Qed.

Lemma search_markets_outcomes_witness :
  let rq := markets_request (self logged_in) {[ "CST" := "abc"; "X-SECURITY-TOKEN" := "xyz" ]}
              (markets_params "BTC" (Some ["BTCUSD"; "ETHUSD"])) in
  snd (search_markets venue_abc_xyz "BTC" (Some ["BTCUSD"; "ETHUSD"]) logged_in)
  = logged logged_in [rq] /\
  r_params rq !! "searchTerm" = Some "BTC" /\
  r_params rq !! "epics" = Some (join "," ["BTCUSD"; "ETHUSD"]) /\
  (forall k, k <> "searchTerm" -> k <> "epics" -> r_params rq !! k = None) /\
  (forall r v,
     venue_abc_xyz (sent logged_in) rq = Reply r -> error_status r = false ->
     resp_json r = Some v ->
     fst (search_markets venue_abc_xyz "BTC" (Some ["BTCUSD"; "ETHUSD"]) logged_in)
     = Ok v) /\
  (forall r,
     venue_abc_xyz (sent logged_in) rq = Reply r -> error_status r = false ->
     resp_json r = None ->
     fst (search_markets venue_abc_xyz "BTC" (Some ["BTCUSD"; "ETHUSD"]) logged_in)
     = Raise JSONDecodeError) /\
  (forall r,
     venue_abc_xyz (sent logged_in) rq = Reply r -> error_status r = true ->
     fst (search_markets venue_abc_xyz "BTC" (Some ["BTCUSD"; "ETHUSD"]) logged_in)
     = Raise (HTTPError rq (status_code r))) /\
  search_markets venue_abc_xyz "BTC" (Some []) logged_in
  = search_markets venue_abc_xyz "BTC" None logged_in.
Proof.
  exact (search_markets_outcomes venue_abc_xyz logged_in "abc" "xyz" "BTC"
           (Some ["BTCUSD"; "ETHUSD"]) eq_refl eq_refl eq_refl eq_refl).
Defined.

(** The epics of that search go out as one parameter. *)
Example search_markets_joins_epics :
  markets_params "BTC" (Some ["BTCUSD"; "ETHUSD"])
  = {[ "searchTerm" := "BTC"; "epics" := "BTCUSD,ETHUSD" ]}.
Proof. vm_compute. reflexivity. Qed.

(** X18. An order whose POST is answered with 200 and a body that cannot
    be read raises after the order has gone out, and no confirmation is
    asked for: [JSONDecodeError] when the body is not JSON,
    [AttributeError] when it is JSON but not an object. The POST is the
    only request sent. *)
Theorem place_market_order_unreadable_answer
    net s a b epic direction size risk f r :
  cst (self s) = Some a -> sec (self s) = Some b ->
  truthy (Some a) = true -> truthy (Some b) = true ->
  float size = Ok f ->
  let post := positions_request (self s) {[ "CST" := a; "X-SECURITY-TOKEN" := b ]}
                (order_payload epic direction f risk) in
  net (sent s) post = Reply r ->
  error_status r = false ->
  (resp_json r = None ->
   place_market_order net epic direction size risk s
   = (Raise JSONDecodeError, logged s [post])) /\
  (forall body,
     resp_json r = Some body -> (forall m, body <> PDict m) ->
     place_market_order net epic direction size risk s
     = (Raise AttributeError, logged s [post])).
Proof.
  intros Ha Hb Ta Tb Hf post Hr Hs.
  rewrite (place_market_order_authenticated net s a b Ha Hb Ta Tb
             epic direction size risk f Hf).
  cbv zeta. fold post. rewrite Hr, Hs. split.
  - intros Hj. by rewrite Hj.
  - intros body Hj Hbody. rewrite Hj.
    destruct body; try reflexivity. by destruct (Hbody d).
Qed.

Lemma place_market_order_list_answer :
  (resp_json (Response 200 ∅ (Some (PList [PStr "D1"]))) = None ->
   place_market_order venue_list_answer "BTCUSD" "buy" (NInt 1) risk_profit logged_in
   = (Raise JSONDecodeError, logged logged_in [post_BTCUSD])) /\
  (forall body,
     resp_json (Response 200 ∅ (Some (PList [PStr "D1"]))) = Some body ->
     (forall m, body <> PDict m) ->
     place_market_order venue_list_answer "BTCUSD" "buy" (NInt 1) risk_profit logged_in
     = (Raise AttributeError, logged logged_in [post_BTCUSD])).
Proof.
  exact (place_market_order_unreadable_answer venue_list_answer logged_in
           "abc" "xyz" "BTCUSD" "buy" (NInt 1) risk_profit float_one
           (Response 200 ∅ (Some (PList [PStr "D1"])))
           eq_refl eq_refl eq_refl eq_refl eq_refl eq_refl eq_refl).
Defined.

(** X19. When the subscribe message cannot be sent, the session ends
    with the exception of [send]: nothing is read, the consumer is never
    called, and the connection that was opened is closed. *)
Theorem send_failure_closes_without_reading c epics on_quote run_seconds w e :
  connect_error w = None ->
  send_error w = Some e ->
  stream_quotes c epics on_quote run_seconds w
  = (Some (Raise e),
     [Connect WS_URL 20; Send (subscribe_msg c epics); Close]) /\
  delivered (snd (stream_quotes c epics on_quote run_seconds w)) = [] /\
  frames_read (snd (stream_quotes c epics on_quote run_seconds w)) = [].
Proof.
  intros Hc Hs.
  assert (E : stream_quotes c epics on_quote run_seconds w
              = (Some (Raise e),
                 [Connect WS_URL 20; Send (subscribe_msg c epics); Close])).
  { rewrite stream_quotes_connected by exact Hc.
    unfold subscribe_and_receive. by rewrite Hs. }
  rewrite E. repeat split.
Qed.

Lemma send_failure_closes_without_reading_witness :
  stream_quotes demo [PStr "X"] quiet 20 world_send_raises
  = (Some (Raise (WebSocketException "broken pipe")),
     [Connect WS_URL 20; Send (subscribe_msg demo [PStr "X"]); Close]) /\
  delivered (snd (stream_quotes demo [PStr "X"] quiet 20 world_send_raises)) = [] /\
  frames_read (snd (stream_quotes demo [PStr "X"] quiet 20 world_send_raises)) = [].
Proof.
  exact (send_failure_closes_without_reading demo [PStr "X"] quiet 20
           world_send_raises (WebSocketException "broken pipe") eq_refl eq_refl).
Defined.

(** X20. An exception of [recv], such as its timeout on a silent socket,
    ends the session at once, before the deadline: wherever it comes,
    after any run of messages that were handled, [stream_quotes] raises
    it after closing, and nothing that follows in the inbox is read. *)
Theorem recv_exception_ends_session
    c epics on_quote run_seconds t0 pre_clock now clock pre e inbox close_err :
  length pre_clock = length pre ->
  Forall (fun t => t < t0 + run_seconds) pre_clock ->
  Forall (goes_on on_quote) pre ->
  now < t0 + run_seconds ->
  stream_quotes c epics on_quote run_seconds
    (World None None (t0 :: pre_clock ++ now :: clock)
           (map Recv pre ++ RecvRaises e :: inbox) close_err)
  = (Some (Raise e),
     Connect WS_URL 20 :: Send (subscribe_msg c epics)
       :: events_of on_quote pre ++ [Read (RecvRaises e); Close]).
Proof.
  intros Hlen Ht Hgo Hnow.
  rewrite stream_quotes_connected by reflexivity.
  unfold subscribe_and_receive. simpl.
  rewrite (receive_loop_prefix on_quote _ _ _ pre pre_clock Hlen Ht Hgo).
  simpl. apply Z.ltb_lt in Hnow. rewrite Hnow.
  unfold try_finally, after. simpl. by rewrite <- app_assoc.
Qed.

Lemma recv_exception_ends_session_witness :
  stream_quotes demo [PStr "X"] quiet 20
    (World None None [0; 1; 2; 25]
           [Recv frame_quote_X; RecvRaises (WebSocketException "timed out");
            Recv frame_quote_X] None)
  = (Some (Raise (WebSocketException "timed out")),
     [Connect WS_URL 20; Send (subscribe_msg demo [PStr "X"]);
      Read (Recv frame_quote_X); Quote payload_X;
      Read (RecvRaises (WebSocketException "timed out")); Close]).
Proof.
  refine (recv_exception_ends_session demo [PStr "X"] quiet 20 0 [1] 2 [25]
            [frame_quote_X] (WebSocketException "timed out")
            [Recv frame_quote_X] None eq_refl _ _ _).
  - repeat constructor.
  - repeat constructor.
  - reflexivity.
Defined.
